(** * The NTLM Challenge message (type 2) of go-ntlmssp: [type2.go]

    A shallow embedding of [ChallengeMsg] and of its methods, followed by the
    properties of the codec.

    Conventions of the embedding.
    - A Go [byte] is a [Byte.byte].  A [[]byte] comes in two forms.  Where
      only its elements matter it is the list of its elements.  Where the
      code applies a slice expression to it, Go bounds the expression by
      the capacity, not by the length: there the slice is a [goslice], its
      elements together with the bytes of its backing array between its
      length and its capacity, and [UnMarshal_in], [TargetInfo_in] and
      [TargetName_in] are the methods on such slices.  The methods on plain
      lists, [UnMarshal], [TargetInfo], [TargetName] and [Version], are the
      same methods on a slice that has no spare capacity.
      Nothing in [type2.go] tells a nil slice from an empty one, except
      [SetServerChallenge], whose argument is an [option].
    - [uint16] and [uint32] values are integers of [Z]; every conversion and
      every addition writes its wrap-around out.
    - A Go [string] is a [string]; a [map[string]interface{}] is the list of
      its entries in the order in which the [range] statement visits them.
    - A run-time panic is the [Fault] outcome of the [result] type.
    - [unsafe.Pointer] casts read the memory image of an integer; the host is
      little-endian (amd64, arm64), so the image is the little-endian one. *)

From Stdlib Require Import ZArith List Lia Bool Permutation.
From Stdlib.Strings Require Import String Byte.
Import ListNotations.
Open Scope Z_scope.

(** ** Outcomes *)

Inductive fault : Type :=
| IndexOutOfRange
| TypeAssertion
| PanicMsg (msg : string).

Inductive result (A : Type) : Type :=
| Ok (a : A)
| Fault (f : fault).

Arguments Ok {A} a.
Arguments Fault {A} f.

Definition bind {A B : Type} (r : result A) (k : A -> result B) : result B :=
  match r with
  | Ok a => k a
  | Fault f => Fault f
  end.

Notation "x <- r ;; k" := (bind r (fun x => k))
  (at level 61, r at next level, right associativity).

(** ** Bytes and fixed-width integers *)

Definition byte_to_Z (b : byte) : Z := Z.of_N (Byte.to_N b).

(** The conversion [byte(x)]: the low eight bits. *)
Definition Z_to_byte (z : Z) : byte :=
  match Byte.of_N (Z.to_N (z mod 256)) with
  | Some b => b
  | None => x00
  end.

Definition uint16 (z : Z) : Z := z mod 65536.
Definition uint32 (z : Z) : Z := z mod 4294967296.
Definition uint64 (z : Z) : Z := z mod 18446744073709551616.

(** Memory image of a [uint16] and of a [uint32] on the little-endian host:
    the two, respectively four, bytes that [Marshal] reads through
    [unsafe.Pointer]. *)
Definition mem16 (x : Z) : list byte :=
  [Z_to_byte x; Z_to_byte (Z.shiftr x 8)].

Definition mem32 (x : Z) : list byte :=
  [Z_to_byte x; Z_to_byte (Z.shiftr x 8);
   Z_to_byte (Z.shiftr x 16); Z_to_byte (Z.shiftr x 24)].

(** [bits.ReverseBytes16] and [bits.ReverseBytes32] of the Go library
    [math/bits], with the masks of its implementation. *)
Definition ReverseBytes16 (x : Z) : Z :=
  Z.lor (Z.shiftr x 8) (uint16 (Z.shiftl x 8)).

Definition ReverseBytes32 (x : Z) : Z :=
  let x1 := Z.lor (Z.land (Z.shiftr x 8) 16711935)
                  (uint32 (Z.shiftl (Z.land x 16711935) 8)) in
  Z.lor (Z.shiftr x1 16) (uint32 (Z.shiftl x1 16)).

(** The elements of [bs[lo:hi]] for a slice [bs] without spare capacity,
    given by its elements.  For a slice with spare capacity, given by the
    bytes of its backing array up to the capacity, these are the elements of
    the slice expression too (lemma [sub_backing]). *)
Definition slice (bs : list byte) (lo hi : nat) : result (list byte) :=
  if (Nat.leb lo hi && Nat.leb hi (List.length bs))%bool
  then Ok (firstn (hi - lo) (skipn lo bs))
  else Fault IndexOutOfRange.

(** A slice with its capacity: the elements below its length, and the bytes
    of its backing array between its length and its capacity. *)
Record goslice : Type := mkslice {
  elems : list byte;
  spare : list byte
}.

(** The bytes a slice expression can reach: the backing array from the
    first element of the slice up to its capacity. *)
Definition backing (s : goslice) : list byte := elems s ++ spare s.

(** The slice expression [s[lo:hi]]: Go requires [lo <= hi <= cap(s)]; the
    result starts at element [lo], has length [hi - lo] and keeps the rest
    of the backing array as spare capacity. *)
Definition reslice (s : goslice) (lo hi : nat) : result goslice :=
  if (Nat.leb lo hi && Nat.leb hi (List.length (backing s)))%bool
  then Ok (mkslice (firstn (hi - lo) (skipn lo (backing s)))
             (skipn hi (backing s)))
  else Fault IndexOutOfRange.

(** The elements of [s[lo:hi]], for the callers that only read them
    ([copy], [bytes2Uint], a conversion to [string]). *)
Definition sub (s : goslice) (lo hi : nat) : result (list byte) :=
  match reslice s lo hi with
  | Ok r => Ok (elems r)
  | Fault f => Fault f
  end.

(** The built-in [copy(dst, src)]: the first [min(len dst, len src)]
    elements of [dst] are overwritten. *)
Definition copy (dst src : list byte) : list byte :=
  firstn (List.length dst) src ++ skipn (List.length src) dst.

(** [make([]byte, n)]. *)
Definition make (n : nat) : list byte := repeat x00 n.

(** ** Helpers and constants declared outside [type2.go] *)

(** Modelled from the spec: [bytes2Uint] is declared in another file of the
    package; it is the "fixed-width integer byte-order conversion" of the
    primitive helpers, reading [bs] as an unsigned integer, least significant
    byte first for ['<'] and most significant byte first for ['>'], into a
    [uint64]. *)
Fixpoint le_value (bs : list byte) : Z :=
  match bs with
  | [] => 0
  | b :: r => byte_to_Z b + 256 * le_value r
  end.

Definition bytes2Uint (bs : list byte) (endian : byte) : Z :=
  if Byte.eqb endian ">"%byte
  then uint64 (le_value (rev bs))
  else uint64 (le_value bs).

(** Modelled from the spec: [encodeUTF16LE] is declared in another file of
    the package; it is the "UTF-16LE doubling length" encoding of single-byte
    text: every byte becomes a 16-bit code unit, low byte first. *)
Definition encodeUTF16LE (bs : list byte) : list byte :=
  flat_map (fun b => [b; x00]) bs.

(** Modelled from the spec: the negotiate-flag constants are declared in
    another file of the package; they are the capability bits of the NTLM
    protocol named by the spec: unicode charset (bit 0, the literal [1] that
    [TargetName] tests), target-info present (bit 23) and version present
    (bit 25). *)
Definition NEGOTIATE_UNICODE_CHARSET : Z := 1.
Definition NEGOTIATE_TARGET_INFO : Z := 8388608.
Definition NEGOTIATE_VERSION : Z := 33554432.

(** Modelled from the spec: the table [avIdsRev], from attribute name to
    identifier, is declared in another file of the package.  The methods
    below take the table as a parameter; a key that is absent reads as the
    zero byte, as a Go map lookup does.  This instance lists the ten known
    identifiers of the spec under the attribute names of the protocol, among
    them the key [MsvAvTimestamp] that [String] looks up. *)
Definition avIdsRev_table (k : string) : byte :=
  if String.eqb k "MsvAvNbDomainName" then x01
  else if String.eqb k "MsvAvNbComputerName" then x02
  else if String.eqb k "MsvAvDnsDomainName" then x03
  else if String.eqb k "MsvAvDnsComputerName" then x04
  else if String.eqb k "MsvAvDnsTreeName" then x05
  else if String.eqb k "MsvAvFlags" then x06
  else if String.eqb k "MsvAvTimestamp" then x07
  else if String.eqb k "MsvAvSingleHost" then x08
  else if String.eqb k "MsvAvTargetName" then x09
  else if String.eqb k "MsvChannelBindings" then x0a
  else x00.

Definition ChallengeMsgPayloadOffset : Z := 48.

(** ** The message *)

Record ChallengeMsg : Type := mkChallengeMsg {
  Signature : list byte;            (* [8]byte *)
  MessageType : Z;                  (* uint32 *)
  TargetNameLen : Z;                (* uint16 *)
  TargetNameMaxLen : Z;             (* uint16 *)
  TargetNameBufferOffset : Z;       (* uint32 *)
  NegotiateFlags : Z;               (* uint32 *)
  ServerChallenge : list byte;      (* [8]byte *)
  Reserved : list byte;             (* [8]byte *)
  TargetInfoLen : Z;                (* uint16 *)
  TargetInfoMaxLen : Z;             (* uint16 *)
  TargetInfoBufferOffset : Z;       (* uint32 *)
  Payload : list byte;
  offset : Z                        (* uint32, the write cursor *)
}.

(** Assignments to one field. *)
Definition with_Signature (cm : ChallengeMsg) (v : list byte) :=
  mkChallengeMsg v (MessageType cm) (TargetNameLen cm) (TargetNameMaxLen cm)
    (TargetNameBufferOffset cm) (NegotiateFlags cm) (ServerChallenge cm)
    (Reserved cm) (TargetInfoLen cm) (TargetInfoMaxLen cm)
    (TargetInfoBufferOffset cm) (Payload cm) (offset cm).

Definition with_MessageType (cm : ChallengeMsg) (v : Z) :=
  mkChallengeMsg (Signature cm) v (TargetNameLen cm) (TargetNameMaxLen cm)
    (TargetNameBufferOffset cm) (NegotiateFlags cm) (ServerChallenge cm)
    (Reserved cm) (TargetInfoLen cm) (TargetInfoMaxLen cm)
    (TargetInfoBufferOffset cm) (Payload cm) (offset cm).

Definition with_TargetNameLen (cm : ChallengeMsg) (v : Z) :=
  mkChallengeMsg (Signature cm) (MessageType cm) v (TargetNameMaxLen cm)
    (TargetNameBufferOffset cm) (NegotiateFlags cm) (ServerChallenge cm)
    (Reserved cm) (TargetInfoLen cm) (TargetInfoMaxLen cm)
    (TargetInfoBufferOffset cm) (Payload cm) (offset cm).

Definition with_TargetNameMaxLen (cm : ChallengeMsg) (v : Z) :=
  mkChallengeMsg (Signature cm) (MessageType cm) (TargetNameLen cm) v
    (TargetNameBufferOffset cm) (NegotiateFlags cm) (ServerChallenge cm)
    (Reserved cm) (TargetInfoLen cm) (TargetInfoMaxLen cm)
    (TargetInfoBufferOffset cm) (Payload cm) (offset cm).

Definition with_TargetNameBufferOffset (cm : ChallengeMsg) (v : Z) :=
  mkChallengeMsg (Signature cm) (MessageType cm) (TargetNameLen cm)
    (TargetNameMaxLen cm) v (NegotiateFlags cm) (ServerChallenge cm)
    (Reserved cm) (TargetInfoLen cm) (TargetInfoMaxLen cm)
    (TargetInfoBufferOffset cm) (Payload cm) (offset cm).

Definition with_NegotiateFlags (cm : ChallengeMsg) (v : Z) :=
  mkChallengeMsg (Signature cm) (MessageType cm) (TargetNameLen cm)
    (TargetNameMaxLen cm) (TargetNameBufferOffset cm) v (ServerChallenge cm)
    (Reserved cm) (TargetInfoLen cm) (TargetInfoMaxLen cm)
    (TargetInfoBufferOffset cm) (Payload cm) (offset cm).

Definition with_ServerChallenge (cm : ChallengeMsg) (v : list byte) :=
  mkChallengeMsg (Signature cm) (MessageType cm) (TargetNameLen cm)
    (TargetNameMaxLen cm) (TargetNameBufferOffset cm) (NegotiateFlags cm) v
    (Reserved cm) (TargetInfoLen cm) (TargetInfoMaxLen cm)
    (TargetInfoBufferOffset cm) (Payload cm) (offset cm).

Definition with_Reserved (cm : ChallengeMsg) (v : list byte) :=
  mkChallengeMsg (Signature cm) (MessageType cm) (TargetNameLen cm)
    (TargetNameMaxLen cm) (TargetNameBufferOffset cm) (NegotiateFlags cm)
    (ServerChallenge cm) v (TargetInfoLen cm) (TargetInfoMaxLen cm)
    (TargetInfoBufferOffset cm) (Payload cm) (offset cm).

Definition with_TargetInfoLen (cm : ChallengeMsg) (v : Z) :=
  mkChallengeMsg (Signature cm) (MessageType cm) (TargetNameLen cm)
    (TargetNameMaxLen cm) (TargetNameBufferOffset cm) (NegotiateFlags cm)
    (ServerChallenge cm) (Reserved cm) v (TargetInfoMaxLen cm)
    (TargetInfoBufferOffset cm) (Payload cm) (offset cm).

Definition with_TargetInfoMaxLen (cm : ChallengeMsg) (v : Z) :=
  mkChallengeMsg (Signature cm) (MessageType cm) (TargetNameLen cm)
    (TargetNameMaxLen cm) (TargetNameBufferOffset cm) (NegotiateFlags cm)
    (ServerChallenge cm) (Reserved cm) (TargetInfoLen cm) v
    (TargetInfoBufferOffset cm) (Payload cm) (offset cm).

Definition with_TargetInfoBufferOffset (cm : ChallengeMsg) (v : Z) :=
  mkChallengeMsg (Signature cm) (MessageType cm) (TargetNameLen cm)
    (TargetNameMaxLen cm) (TargetNameBufferOffset cm) (NegotiateFlags cm)
    (ServerChallenge cm) (Reserved cm) (TargetInfoLen cm)
    (TargetInfoMaxLen cm) v (Payload cm) (offset cm).

Definition with_Payload (cm : ChallengeMsg) (v : list byte) :=
  mkChallengeMsg (Signature cm) (MessageType cm) (TargetNameLen cm)
    (TargetNameMaxLen cm) (TargetNameBufferOffset cm) (NegotiateFlags cm)
    (ServerChallenge cm) (Reserved cm) (TargetInfoLen cm)
    (TargetInfoMaxLen cm) (TargetInfoBufferOffset cm) v (offset cm).

Definition with_offset (cm : ChallengeMsg) (v : Z) :=
  mkChallengeMsg (Signature cm) (MessageType cm) (TargetNameLen cm)
    (TargetNameMaxLen cm) (TargetNameBufferOffset cm) (NegotiateFlags cm)
    (ServerChallenge cm) (Reserved cm) (TargetInfoLen cm)
    (TargetInfoMaxLen cm) (TargetInfoBufferOffset cm) (Payload cm) v.

(** The zero value [ChallengeMsg{}]. *)
Definition ChallengeMsg_zero : ChallengeMsg :=
  mkChallengeMsg (make 8) 0 0 0 0 0 (make 8) (make 8) 0 0 0 [] 0.

(** ** Marshal *)

(** The body of [Marshal], run on its receiver.  The receiver is passed by
    value: the body works on a copy, which it returns here next to the bytes
    so that the assignments of the big-endian mode stay visible. *)
Definition Marshal_body (cm : ChallengeMsg) (endian : byte)
  : ChallengeMsg * list byte :=
  let bs : list byte := [] in
  let cm :=
    if Byte.eqb endian ">"%byte then
      let cm := with_MessageType cm (ReverseBytes32 (MessageType cm)) in
      let cm := with_NegotiateFlags cm (ReverseBytes32 (NegotiateFlags cm)) in
      let cm := with_TargetNameLen cm (ReverseBytes16 (TargetNameLen cm)) in
      let cm :=
        with_TargetNameMaxLen cm (ReverseBytes16 (TargetNameMaxLen cm)) in
      let cm :=
        with_TargetNameBufferOffset cm
          (ReverseBytes32 (TargetNameBufferOffset cm)) in
      let cm := with_TargetInfoLen cm (ReverseBytes16 (TargetInfoLen cm)) in
      let cm :=
        with_TargetInfoMaxLen cm (ReverseBytes16 (TargetInfoMaxLen cm)) in
      with_TargetInfoBufferOffset cm
        (ReverseBytes32 (TargetInfoBufferOffset cm))
    else cm in
  let bs := bs ++ Signature cm in
  let bs := bs ++ mem32 (MessageType cm) in
  let bs := bs ++ mem16 (TargetNameLen cm) in
  let bs := bs ++ mem16 (TargetNameMaxLen cm) in
  let bs := bs ++ mem32 (TargetNameBufferOffset cm) in
  let bs := bs ++ mem32 (NegotiateFlags cm) in
  let bs := bs ++ ServerChallenge cm in
  let bs := bs ++ Reserved cm in
  let bs := bs ++ mem16 (TargetInfoLen cm) in
  let bs := bs ++ mem16 (TargetInfoMaxLen cm) in
  let bs := bs ++ mem32 (TargetInfoBufferOffset cm) in
  let bs := bs ++ Payload cm in
  (cm, bs).

(** The bytes [cm.Marshal(endian)] returns. *)
Definition Marshal (cm : ChallengeMsg) (endian : byte) : list byte :=
  snd (Marshal_body cm endian).

(** ** Marshal in memory *)

(** The heap: the byte arrays allocated so far, an array being named by its
    index; an allocation adds an array at the end. *)
Definition heap : Type := list (list byte).

(** A slice header: the array it points into, the index of its first
    element there, its length and its capacity. *)
Record slice_hdr : Type := mkhdr {
  hd_base : nat;
  hd_start : nat;
  hd_len : nat;
  hd_cap : nat
}.

(** The elements of a slice, read from the heap. *)
Definition elements (h : heap) (s : slice_hdr) : list byte :=
  firstn (hd_len s) (skipn (hd_start s) (nth (hd_base s) h [])).

(** Storing the bytes [src] into array [a] from index [pos] on. *)
Fixpoint store (h : heap) (a pos : nat) (src : list byte) : heap :=
  match h, a with
  | [], _ => []
  | arr :: rest, O =>
      (firstn pos arr ++ src ++ skipn (pos + List.length src) arr) :: rest
  | arr :: rest, S a' => arr :: store rest a' pos src
  end.

(** The built-in [append(bs, src...)]: when the capacity of [bs] has room,
    the bytes are stored in place after the elements of [bs]; otherwise a
    new array is allocated, of a capacity that the run-time system chooses
    ([grow], at least the length needed), and receives the elements of
    [bs] followed by [src]. *)
Definition append_mem (grow : nat -> nat -> nat) (h : heap) (bs : slice_hdr)
    (src : list byte) : heap * slice_hdr :=
  let n := (hd_len bs + List.length src)%nat in
  if Nat.leb n (hd_cap bs) then
    (store h (hd_base bs) (hd_start bs + hd_len bs) src,
     mkhdr (hd_base bs) (hd_start bs) n (hd_cap bs))
  else
    let c := Nat.max n (grow (hd_cap bs) n) in
    (h ++ [elements h bs ++ src ++ repeat x00 (c - n)],
     mkhdr (List.length h) 0 n c).

(** [Marshal] run in memory.  The caller's message is [cm] by value, with
    its payload in the heap behind the header [payload]; the receiver is a
    copy, so the assignments of the body go to the copy, which is returned
    with the final heap and the header of the result.  The payload is read
    through the header when the last [append] runs. *)
Definition Marshal_mem (grow : nat -> nat -> nat) (h : heap)
    (cm : ChallengeMsg) (payload : slice_hdr) (endian : byte)
  : heap * ChallengeMsg * slice_hdr :=
  let bs := mkhdr 0 0 0 0 in
  let cm :=
    if Byte.eqb endian ">"%byte then
      let cm := with_MessageType cm (ReverseBytes32 (MessageType cm)) in
      let cm := with_NegotiateFlags cm (ReverseBytes32 (NegotiateFlags cm)) in
      let cm := with_TargetNameLen cm (ReverseBytes16 (TargetNameLen cm)) in
      let cm :=
        with_TargetNameMaxLen cm (ReverseBytes16 (TargetNameMaxLen cm)) in
      let cm :=
        with_TargetNameBufferOffset cm
          (ReverseBytes32 (TargetNameBufferOffset cm)) in
      let cm := with_TargetInfoLen cm (ReverseBytes16 (TargetInfoLen cm)) in
      let cm :=
        with_TargetInfoMaxLen cm (ReverseBytes16 (TargetInfoMaxLen cm)) in
      with_TargetInfoBufferOffset cm
        (ReverseBytes32 (TargetInfoBufferOffset cm))
    else cm in
  let '(h, bs) := append_mem grow h bs (Signature cm) in
  let '(h, bs) := append_mem grow h bs (mem32 (MessageType cm)) in
  let '(h, bs) := append_mem grow h bs (mem16 (TargetNameLen cm)) in
  let '(h, bs) := append_mem grow h bs (mem16 (TargetNameMaxLen cm)) in
  let '(h, bs) := append_mem grow h bs (mem32 (TargetNameBufferOffset cm)) in
  let '(h, bs) := append_mem grow h bs (mem32 (NegotiateFlags cm)) in
  let '(h, bs) := append_mem grow h bs (ServerChallenge cm) in
  let '(h, bs) := append_mem grow h bs (Reserved cm) in
  let '(h, bs) := append_mem grow h bs (mem16 (TargetInfoLen cm)) in
  let '(h, bs) := append_mem grow h bs (mem16 (TargetInfoMaxLen cm)) in
  let '(h, bs) := append_mem grow h bs (mem32 (TargetInfoBufferOffset cm)) in
  let '(h, bs) := append_mem grow h bs (elements h payload) in
  (h, cm, bs).

(** The arrays of [h0] are still in [h], with the bytes they had. *)
Definition frame (h0 h : heap) : Prop :=
  (List.length h0 <= List.length h)%nat
  /\ forall a, (a < List.length h0)%nat -> nth a h [] = nth a h0 [].

(** The slice [bs] is empty and without capacity, or it fills from its start an
    array allocated after [h0]. *)
Definition owned (h0 h : heap) (bs : slice_hdr) : Prop :=
  (hd_cap bs = 0%nat /\ hd_len bs = 0%nat)
  \/ ((List.length h0 <= hd_base bs < List.length h)%nat
      /\ hd_start bs = 0%nat
      /\ List.length (nth (hd_base bs) h []) = hd_cap bs
      /\ (hd_len bs <= hd_cap bs)%nat).

(** A header that can be read in [h]: empty, or into an allocated array. *)
Definition readable (h : heap) (s : slice_hdr) : Prop :=
  hd_len s = 0%nat \/ (hd_base s < List.length h)%nat.

(** ** UnMarshal and NewChallengeMsg *)

Definition UnMarshal (cm : ChallengeMsg) (bs : list byte)
  : result ChallengeMsg :=
  s <- slice bs 0 8 ;;
  let cm := with_Signature cm (copy (Signature cm) s) in
  s <- slice bs 8 12 ;;
  let cm := with_MessageType cm (uint32 (bytes2Uint s "<"%byte)) in
  s <- slice bs 12 14 ;;
  let cm := with_TargetNameLen cm (uint16 (bytes2Uint s "<"%byte)) in
  s <- slice bs 14 16 ;;
  let cm := with_TargetNameMaxLen cm (uint16 (bytes2Uint s "<"%byte)) in
  s <- slice bs 16 20 ;;
  let cm := with_TargetNameBufferOffset cm (uint32 (bytes2Uint s "<"%byte)) in
  s <- slice bs 20 24 ;;
  let cm := with_NegotiateFlags cm (uint32 (bytes2Uint s "<"%byte)) in
  s <- slice bs 24 32 ;;
  let cm := with_ServerChallenge cm (copy (ServerChallenge cm) s) in
  s <- slice bs 32 40 ;;
  let cm := with_Reserved cm (copy (Reserved cm) s) in
  s <- slice bs 40 42 ;;
  let cm := with_TargetInfoLen cm (uint16 (bytes2Uint s "<"%byte)) in
  s <- slice bs 42 44 ;;
  let cm := with_TargetInfoMaxLen cm (uint16 (bytes2Uint s "<"%byte)) in
  s <- slice bs 44 48 ;;
  let cm := with_TargetInfoBufferOffset cm (uint32 (bytes2Uint s "<"%byte)) in
  let cm := with_offset cm ChallengeMsgPayloadOffset in
  let plen := 0 in
  let plen :=
    if (negb (TargetNameBufferOffset cm =? 0)
        && negb (TargetNameLen cm =? 0))%bool
    then plen + TargetNameLen cm else plen in
  let plen :=
    if (negb (TargetInfoBufferOffset cm =? 0)
        && negb (TargetInfoLen cm =? 0))%bool
    then plen + TargetInfoLen cm else plen in
  let plen :=
    if negb (Z.land (NegotiateFlags cm) NEGOTIATE_VERSION =? 0)
    then plen + 8 else plen in
  let cm := with_Payload cm (make (Z.to_nat plen)) in
  s <- slice bs (Z.to_nat ChallengeMsgPayloadOffset)
         (Z.to_nat (uint32 (ChallengeMsgPayloadOffset + uint32 plen))) ;;
  Ok (with_Payload cm (copy (Payload cm) s)).

(** [UnMarshal] on a slice with its capacity.  The payload it builds comes
    from [make] and has no spare capacity. *)
Definition UnMarshal_in (cm : ChallengeMsg) (bs : goslice)
  : result ChallengeMsg :=
  s <- sub bs 0 8 ;;
  let cm := with_Signature cm (copy (Signature cm) s) in
  s <- sub bs 8 12 ;;
  let cm := with_MessageType cm (uint32 (bytes2Uint s "<"%byte)) in
  s <- sub bs 12 14 ;;
  let cm := with_TargetNameLen cm (uint16 (bytes2Uint s "<"%byte)) in
  s <- sub bs 14 16 ;;
  let cm := with_TargetNameMaxLen cm (uint16 (bytes2Uint s "<"%byte)) in
  s <- sub bs 16 20 ;;
  let cm := with_TargetNameBufferOffset cm (uint32 (bytes2Uint s "<"%byte)) in
  s <- sub bs 20 24 ;;
  let cm := with_NegotiateFlags cm (uint32 (bytes2Uint s "<"%byte)) in
  s <- sub bs 24 32 ;;
  let cm := with_ServerChallenge cm (copy (ServerChallenge cm) s) in
  s <- sub bs 32 40 ;;
  let cm := with_Reserved cm (copy (Reserved cm) s) in
  s <- sub bs 40 42 ;;
  let cm := with_TargetInfoLen cm (uint16 (bytes2Uint s "<"%byte)) in
  s <- sub bs 42 44 ;;
  let cm := with_TargetInfoMaxLen cm (uint16 (bytes2Uint s "<"%byte)) in
  s <- sub bs 44 48 ;;
  let cm := with_TargetInfoBufferOffset cm (uint32 (bytes2Uint s "<"%byte)) in
  let cm := with_offset cm ChallengeMsgPayloadOffset in
  let plen := 0 in
  let plen :=
    if (negb (TargetNameBufferOffset cm =? 0)
        && negb (TargetNameLen cm =? 0))%bool
    then plen + TargetNameLen cm else plen in
  let plen :=
    if (negb (TargetInfoBufferOffset cm =? 0)
        && negb (TargetInfoLen cm =? 0))%bool
    then plen + TargetInfoLen cm else plen in
  let plen :=
    if negb (Z.land (NegotiateFlags cm) NEGOTIATE_VERSION =? 0)
    then plen + 8 else plen in
  let cm := with_Payload cm (make (Z.to_nat plen)) in
  s <- sub bs (Z.to_nat ChallengeMsgPayloadOffset)
         (Z.to_nat (uint32 (ChallengeMsgPayloadOffset + uint32 plen))) ;;
  Ok (with_Payload cm (copy (Payload cm) s)).

(** [NewChallengeMsg(bs)]; [None] is the nil slice. *)
Definition NewChallengeMsg (bs : option (list byte)) : result ChallengeMsg :=
  let cm := ChallengeMsg_zero in
  match bs with
  | None =>
      let cm :=
        with_Signature cm
          ["N"; "T"; "L"; "M"; "S"; "S"; "P"; x00]%byte in
      let cm := with_MessageType cm 2 in
      Ok (with_offset cm ChallengeMsgPayloadOffset)
  | Some bs => UnMarshal cm bs
  end.

(** ** Setters and accessors *)

Definition SetTargetName (cm : ChallengeMsg) (tname : list byte)
  : result ChallengeMsg :=
  if negb (TargetNameLen cm =? 0) then
    Fault (PanicMsg "Can't set TargetName field repeatedly")
  else
    let cm :=
      if negb (Z.land (NegotiateFlags cm) NEGOTIATE_UNICODE_CHARSET =? 0)
      then
        let cm :=
          with_TargetNameLen cm (uint16 (2 * Z.of_nat (List.length tname))) in
        let cm := with_TargetNameMaxLen cm (TargetNameLen cm) in
        let cm := with_TargetNameBufferOffset cm (offset cm) in
        with_Payload cm (Payload cm ++ encodeUTF16LE tname)
      else
        let cm :=
          with_TargetNameLen cm (uint16 (Z.of_nat (List.length tname))) in
        let cm := with_TargetNameMaxLen cm (TargetNameLen cm) in
        let cm := with_TargetNameBufferOffset cm (offset cm) in
        with_Payload cm (Payload cm ++ tname) in
    Ok (with_offset cm (uint32 (offset cm + uint32 (TargetNameLen cm)))).

Definition TargetInfo (cm : ChallengeMsg) : result (option (list byte)) :=
  if TargetInfoLen cm =? 0 then Ok None
  else
    let lo := uint32 (TargetInfoBufferOffset cm - ChallengeMsgPayloadOffset) in
    s <- slice (Payload cm) (Z.to_nat lo)
           (Z.to_nat (uint32 (lo + uint32 (TargetInfoLen cm)))) ;;
    Ok (Some s).

(** [TargetInfo()] and [TargetName()] on a message whose payload has the
    spare capacity [sp]: the slice expression on [cm.Payload] is bounded by
    the capacity of the payload. *)
Definition TargetInfo_in (cm : ChallengeMsg) (sp : list byte)
  : result (option (list byte)) :=
  if TargetInfoLen cm =? 0 then Ok None
  else
    let lo := uint32 (TargetInfoBufferOffset cm - ChallengeMsgPayloadOffset) in
    s <- sub (mkslice (Payload cm) sp) (Z.to_nat lo)
           (Z.to_nat (uint32 (lo + uint32 (TargetInfoLen cm)))) ;;
    Ok (Some s).

Definition TargetName_in (bytes2StringUTF16 : list byte -> string)
    (cm : ChallengeMsg) (sp : list byte) : result string :=
  if TargetNameLen cm =? 0 then Ok EmptyString
  else
    let lo := uint32 (TargetNameBufferOffset cm - ChallengeMsgPayloadOffset) in
    tname <- sub (mkslice (Payload cm) sp) (Z.to_nat lo)
               (Z.to_nat (uint32 (lo + uint32 (TargetNameLen cm)))) ;;
    if Z.land (NegotiateFlags cm) 1 =? 1 then Ok (bytes2StringUTF16 tname)
    else Ok (string_of_list_byte tname).

(** The dynamic type of an [interface{}] value: a [string], a [[]byte], or
    anything else. *)
Inductive value : Type :=
| VString (s : string)
| VBytes (b : list byte)
| VOther.

(** One iteration of the [range] loop of [SetTargetInfo] on the entry
    [(k, v)], from the bytes [bs] gathered so far. *)
Definition avpair_step (avIdsRev : string -> byte) (bs : list byte)
    (kv : string * value) : result (list byte) :=
  let '(k, v) := kv in
  if Byte.eqb (avIdsRev k) x00 then Ok bs
  else
    let bs := bs ++ [avIdsRev k; x00] in
    if (negb (Byte.eqb (avIdsRev k) x06) && negb (Byte.eqb (avIdsRev k) x07)
        && negb (Byte.eqb (avIdsRev k) x08)
        && negb (Byte.eqb (avIdsRev k) x0a))%bool
    then
      match v with
      | VString s =>
          let length := Z.of_nat (String.length s) * 2 in
          let bs :=
            bs ++ [Z_to_byte (Z.land length 255);
                   Z_to_byte (Z.shiftr (Z.land length 65280) 8)] in
          Ok (bs ++ encodeUTF16LE (list_byte_of_string s))
      | _ => Fault TypeAssertion
      end
    else
      match v with
      | VBytes b =>
          let length := Z.of_nat (List.length b) in
          let bs :=
            bs ++ [Z_to_byte (Z.land length 255);
                   Z_to_byte (Z.shiftr (Z.land length 65280) 8)] in
          Ok (bs ++ b)
      | _ => Fault TypeAssertion
      end.

Fixpoint avpair_loop (avIdsRev : string -> byte) (bs : list byte)
    (tinfo : list (string * value)) : result (list byte) :=
  match tinfo with
  | [] => Ok bs
  | kv :: rest =>
      bs <- avpair_step avIdsRev bs kv ;;
      avpair_loop avIdsRev bs rest
  end.

Definition SetTargetInfo (avIdsRev : string -> byte) (cm : ChallengeMsg)
    (tinfo : list (string * value)) : result ChallengeMsg :=
  if negb (TargetInfoLen cm =? 0) then
    Fault (PanicMsg "Can't set TargetInfo field repeatedly")
  else
    let cm :=
      with_NegotiateFlags cm
        (Z.lor (NegotiateFlags cm) NEGOTIATE_TARGET_INFO) in
    bs <- avpair_loop avIdsRev [] tinfo ;;
    let bs := bs ++ [x00; x00; x00; x00] in
    let cm := with_TargetInfoLen cm (uint16 (Z.of_nat (List.length bs))) in
    let cm := with_TargetInfoMaxLen cm (TargetInfoLen cm) in
    let cm := with_TargetInfoBufferOffset cm (offset cm) in
    let cm := with_Payload cm (Payload cm ++ bs) in
    Ok (with_offset cm (uint32 (offset cm + uint32 (TargetInfoLen cm)))).

(** [TargetName()].  The helper [bytes2StringUTF16] is declared in another
    file of the package and is a parameter here; [string(tname)] is
    [string_of_list_byte]. *)
Definition TargetName (bytes2StringUTF16 : list byte -> string)
    (cm : ChallengeMsg) : result string :=
  if TargetNameLen cm =? 0 then Ok EmptyString
  else
    let lo := uint32 (TargetNameBufferOffset cm - ChallengeMsgPayloadOffset) in
    tname <- slice (Payload cm) (Z.to_nat lo)
               (Z.to_nat (uint32 (lo + uint32 (TargetNameLen cm)))) ;;
    if Z.land (NegotiateFlags cm) 1 =? 1 then Ok (bytes2StringUTF16 tname)
    else Ok (string_of_list_byte tname).

Definition Version (cm : ChallengeMsg) : result (option (list byte)) :=
  if negb (Z.land (NegotiateFlags cm) NEGOTIATE_VERSION =? 0) then
    s <- slice (Payload cm) 0 8 ;; Ok (Some s)
  else Ok None.

(** [SetServerChallenge(challenge)]; [None] is the nil slice, and [rnd] are
    the eight bytes that [rand.Read] draws in that case.  The method has no
    panic and no faulting slice expression. *)
Definition SetServerChallenge (rnd : list byte) (cm : ChallengeMsg)
    (challenge : option (list byte)) : result ChallengeMsg :=
  match challenge with
  | None => Ok (with_ServerChallenge cm (copy (ServerChallenge cm) rnd))
  | Some c => Ok (with_ServerChallenge cm (copy (ServerChallenge cm) c))
  end.

Definition Reset (cm : ChallengeMsg) : ChallengeMsg :=
  let cm := with_Payload cm [] in
  with_offset cm ChallengeMsgPayloadOffset.

(** ** Well-formed messages *)

(** The ranges the Go types give the fields. *)
Record wf (cm : ChallengeMsg) : Prop := mkwf {
  wf_Signature : List.length (Signature cm) = 8%nat;
  wf_ServerChallenge : List.length (ServerChallenge cm) = 8%nat;
  wf_Reserved : List.length (Reserved cm) = 8%nat;
  wf_MessageType : 0 <= MessageType cm < 4294967296;
  wf_TargetNameLen : 0 <= TargetNameLen cm < 65536;
  wf_TargetNameMaxLen : 0 <= TargetNameMaxLen cm < 65536;
  wf_TargetNameBufferOffset : 0 <= TargetNameBufferOffset cm < 4294967296;
  wf_NegotiateFlags : 0 <= NegotiateFlags cm < 4294967296;
  wf_TargetInfoLen : 0 <= TargetInfoLen cm < 65536;
  wf_TargetInfoMaxLen : 0 <= TargetInfoMaxLen cm < 65536;
  wf_TargetInfoBufferOffset : 0 <= TargetInfoBufferOffset cm < 4294967296;
  wf_offset : 0 <= offset cm < 4294967296
}.

(** The payload length that [UnMarshal] computes from the header fields. *)
Definition plen_of (cm : ChallengeMsg) : Z :=
  (if (negb (TargetNameBufferOffset cm =? 0)
       && negb (TargetNameLen cm =? 0))%bool
   then TargetNameLen cm else 0)
  + (if (negb (TargetInfoBufferOffset cm =? 0)
         && negb (TargetInfoLen cm =? 0))%bool
     then TargetInfoLen cm else 0)
  + (if negb (Z.land (NegotiateFlags cm) NEGOTIATE_VERSION =? 0)
     then 8 else 0).

(** Consistent fields: the lengths and offsets of the header describe the
    payload, which holds exactly the bytes they announce. *)
Definition consistent (cm : ChallengeMsg) : Prop :=
  Z.of_nat (List.length (Payload cm)) = plen_of cm.

(** Agreement on every field of the wire format, that is on every field but
    the cursor. *)
Definition wire_eq (a b : ChallengeMsg) : Prop :=
  with_offset a 0 = with_offset b 0.

(** The invariant "length zero if and only if offset zero" of one triple. *)
Definition absent_iff (len off : Z) : Prop := len = 0 <-> off = 0.

(** The message that [UnMarshal] builds when no slice expression faults,
    field by field: the closed form of the assignments of [UnMarshal]. *)
Definition header_of (bs : list byte) : ChallengeMsg :=
  mkChallengeMsg
    (firstn 8 bs)
    (uint32 (bytes2Uint (firstn 4 (skipn 8 bs)) "<"%byte))
    (uint16 (bytes2Uint (firstn 2 (skipn 12 bs)) "<"%byte))
    (uint16 (bytes2Uint (firstn 2 (skipn 14 bs)) "<"%byte))
    (uint32 (bytes2Uint (firstn 4 (skipn 16 bs)) "<"%byte))
    (uint32 (bytes2Uint (firstn 4 (skipn 20 bs)) "<"%byte))
    (firstn 8 (skipn 24 bs))
    (firstn 8 (skipn 32 bs))
    (uint16 (bytes2Uint (firstn 2 (skipn 40 bs)) "<"%byte))
    (uint16 (bytes2Uint (firstn 2 (skipn 42 bs)) "<"%byte))
    (uint32 (bytes2Uint (firstn 4 (skipn 44 bs)) "<"%byte))
    []
    ChallengeMsgPayloadOffset.

Definition decoded (bs : list byte) : ChallengeMsg :=
  with_Payload (header_of bs)
    (firstn (Z.to_nat (plen_of (header_of bs))) (skipn 48 bs)).

(** ** Closed forms and the encoding of the spec *)

(** The bytes [SetTargetName] appends and the length it records. *)
Definition name_bytes (cm : ChallengeMsg) (tname : list byte) : list byte :=
  if negb (Z.land (NegotiateFlags cm) NEGOTIATE_UNICODE_CHARSET =? 0)
  then encodeUTF16LE tname else tname.

(** The encoding as the spec words it: for each entry whose key has a known
    identifier, the identifier on two bytes, the length of the value bytes on
    two bytes, least significant first, and the value bytes, which are the
    value itself for the raw identifiers 6, 7, 8 and 10 and its UTF-16LE
    encoding for the others; then the terminator. *)
Definition is_raw (id : byte) : bool :=
  (Byte.eqb id x06 || Byte.eqb id x07 || Byte.eqb id x08
   || Byte.eqb id x0a)%bool.

Definition value_content (v : value) : list byte :=
  match v with
  | VString s => list_byte_of_string s
  | VBytes b => b
  | VOther => []
  end.

Definition avpair_encoding (id : byte) (v : value) : list byte :=
  let body :=
    if is_raw id then value_content v
    else encodeUTF16LE (value_content v) in
  [id; x00] ++ mem16 (Z.of_nat (List.length body)) ++ body.

Definition AVPairs_encoding (avIdsRev : string -> byte)
    (tinfo : list (string * value)) : list byte :=
  flat_map
    (fun kv =>
       if Byte.eqb (avIdsRev (fst kv)) x00 then []
       else avpair_encoding (avIdsRev (fst kv)) (snd kv))
    tinfo
  ++ [x00; x00; x00; x00].

(** The value of an entry has the dynamic type its identifier asks for: a
    [[]byte] for a raw identifier, a [string] for any other. *)
Definition value_fits (id : byte) (v : value) : bool :=
  match v with
  | VString _ => negb (is_raw id)
  | VBytes _ => is_raw id
  | VOther => false
  end.

Definition well_typed (avIdsRev : string -> byte)
    (tinfo : list (string * value)) : Prop :=
  Forall
    (fun kv =>
       avIdsRev (fst kv) = x00
       \/ value_fits (avIdsRev (fst kv)) (snd kv) = true)
    tinfo.

(** The cursor stands at the end of the payload: the absolute position at
    which the next appended byte goes. *)
Definition cursor_at_end (cm : ChallengeMsg) : Prop :=
  offset cm = ChallengeMsgPayloadOffset + Z.of_nat (List.length (Payload cm)).

(** The message whose integer fields are those of [cm] with their bytes
    reversed: the copy that [Marshal] works on in its big-endian mode. *)
Definition byte_swapped (cm : ChallengeMsg) : ChallengeMsg :=
  fst (Marshal_body cm ">"%byte).

(** ** Sample messages and buffers *)

(** The message [NewChallengeMsg(nil)] returns. *)
Definition empty_msg : ChallengeMsg :=
  mkChallengeMsg ["N"; "T"; "L"; "M"; "S"; "S"; "P"; x00]%byte 2
    0 0 0 0 (make 8) (make 8) 0 0 0 [] 48.

(** The message built by [NewChallengeMsg(nil)] followed by
    [SetTargetName] on the one byte [A]. *)
Definition msg_name_A : ChallengeMsg :=
  mkChallengeMsg ["N"; "T"; "L"; "M"; "S"; "S"; "P"; x00]%byte 2
    1 1 48 0 (make 8) (make 8) 0 0 0 ["A"%byte] 49.

(** The message built by [NewChallengeMsg(nil)] followed by
    [SetTargetInfo] on the empty mapping. *)
Definition msg_info_empty : ChallengeMsg :=
  mkChallengeMsg ["N"; "T"; "L"; "M"; "S"; "S"; "P"; x00]%byte 2
    0 0 0 8388608 (make 8) (make 8) 4 4 48 [x00; x00; x00; x00] 52.

(** The message built by [NewChallengeMsg(nil)], [SetTargetName] on the
    byte [A] and [SetTargetInfo] on the empty mapping, and the one built
    with the two setters in the other order. *)
Definition msg_name_then_info : ChallengeMsg :=
  mkChallengeMsg ["N"; "T"; "L"; "M"; "S"; "S"; "P"; x00]%byte 2
    1 1 48 8388608 (make 8) (make 8) 4 4 49
    ["A"; x00; x00; x00; x00]%byte 53.

Definition msg_info_then_name : ChallengeMsg :=
  mkChallengeMsg ["N"; "T"; "L"; "M"; "S"; "S"; "P"; x00]%byte 2
    1 1 52 8388608 (make 8) (make 8) 4 4 48
    [x00; x00; x00; x00; "A"]%byte 53.

(** A 49-byte buffer: a header that announces a one-byte target name at
    offset 48, followed by that byte. *)
Definition buffer_name_A : list byte :=
  ["N"; "T"; "L"; "M"; "S"; "S"; "P"; x00;
   x02; x00; x00; x00;
   x01; x00;  x01; x00;  x30; x00; x00; x00;
   x00; x00; x00; x00;
   x00; x00; x00; x00; x00; x00; x00; x00;
   x00; x00; x00; x00; x00; x00; x00; x00;
   x00; x00;  x00; x00;  x00; x00; x00; x00;
   "A"]%byte.

(** A 56-byte buffer: a header with the version flag set and no target name
    or info, followed by an eight-byte version block. *)
Definition buffer_version : list byte :=
  ["N"; "T"; "L"; "M"; "S"; "S"; "P"; x00;
   x02; x00; x00; x00;
   x00; x00;  x00; x00;  x00; x00; x00; x00;
   x00; x00; x00; x02;
   x00; x00; x00; x00; x00; x00; x00; x00;
   x00; x00; x00; x00; x00; x00; x00; x00;
   x00; x00;  x00; x00;  x00; x00; x00; x00;
   x06; x01; xb1; x1d; x00; x00; x00; x0f]%byte.

(** A heap with one array of three bytes, the header of a payload that is
    its first byte, and a growth policy that doubles the length needed. *)
Definition sample_heap : heap := [["A"; x00; x00]%byte].

Definition sample_payload : slice_hdr := mkhdr 0 0 1 3.

Definition sample_grow (old needed : nat) : nat := (2 * needed)%nat.

(** A mapping with a text entry, a raw entry and an entry of unknown key. *)
Definition sample_tinfo : list (string * value) :=
  [("MsvAvNbDomainName", VString "AB");
   ("NoSuchAttribute", VString "zz");
   ("MsvAvTimestamp", VBytes [x01; x02; x03; x04; x05; x06; x07; x08])]%string.

(** * Properties *)

(** ** Bytes and integers *)

Lemma byte_to_Z_range (b : byte) : 0 <= byte_to_Z b < 256.
Proof.
  unfold byte_to_Z. pose proof (Byte.to_N_bounded b). lia.
Qed.

Lemma Z_to_byte_to_Z (b : byte) : Z_to_byte (byte_to_Z b) = b.
Proof.
  unfold Z_to_byte. pose proof (byte_to_Z_range b) as Hb.
  rewrite Z.mod_small by exact Hb.
  unfold byte_to_Z. rewrite N2Z.id, Byte.of_to_N. reflexivity.
Qed.

Lemma byte_to_Z_to_byte (z : Z) : byte_to_Z (Z_to_byte z) = z mod 256.
Proof.
  unfold Z_to_byte, byte_to_Z.
  pose proof (Z.mod_pos_bound z 256 ltac:(lia)) as Hm.
  destruct (Byte.of_N (Z.to_N (z mod 256))) as [b|] eqn:E.
  - apply Byte.to_of_N in E. rewrite E. lia.
  - apply Byte.of_N_None_iff in E. lia.
Qed.

Lemma Z_to_byte_mod (z : Z) : Z_to_byte (z mod 256) = Z_to_byte z.
Proof.
  unfold Z_to_byte. rewrite Z.mod_mod by lia. reflexivity.
Qed.

Lemma Z_to_byte_eq (a b : Z) : a mod 256 = b mod 256 -> Z_to_byte a = Z_to_byte b.
Proof.
  intros H. unfold Z_to_byte. rewrite H. reflexivity.
Qed.

Lemma le_value_mem16 (x : Z) : 0 <= x < 65536 -> le_value (mem16 x) = x.
Proof.
  intros Hx. unfold mem16. cbn [le_value].
  rewrite !byte_to_Z_to_byte, Z.shiftr_div_pow2 by lia.
  change (2 ^ 8) with 256.
  Z.div_mod_to_equations. lia.
Qed.

Lemma le_value_mem32 (x : Z) : 0 <= x < 4294967296 -> le_value (mem32 x) = x.
Proof.
  intros Hx. unfold mem32. cbn [le_value].
  rewrite !byte_to_Z_to_byte, !Z.shiftr_div_pow2 by lia.
  change (2 ^ 8) with 256. change (2 ^ 16) with 65536.
  change (2 ^ 24) with 16777216.
  Z.div_mod_to_equations. lia.
Qed.

Lemma le_value_bound (bs : list byte) :
  0 <= le_value bs < 256 ^ Z.of_nat (List.length bs).
Proof.
  induction bs as [|b r IH]; cbn [le_value].
  - simpl. lia.
  - pose proof (byte_to_Z_range b).
    replace (Z.of_nat (List.length (b :: r))) with (Z.succ (Z.of_nat (List.length r)))
      by (simpl List.length; lia).
    rewrite Z.pow_succ_r by lia. lia.
Qed.

(** Two integers with the same eight low bits give the same byte. *)
Lemma Z_to_byte_bits (a b : Z) :
  (forall n, 0 <= n < 8 -> Z.testbit a n = Z.testbit b n) ->
  Z_to_byte a = Z_to_byte b.
Proof.
  intros H. apply Z_to_byte_eq. change 256 with (2 ^ 8).
  apply Z.bits_inj'. intros n Hn.
  destruct (Z.ltb_spec n 8).
  - rewrite !Z.mod_pow2_bits_low by lia. apply H. lia.
  - rewrite !Z.mod_pow2_bits_high by lia. reflexivity.
Qed.

Ltac index_cases n H :=
  assert (n = 0 \/ n = 1 \/ n = 2 \/ n = 3 \/ n = 4 \/ n = 5 \/ n = 6 \/ n = 7)
    as H by lia;
  repeat (destruct H as [H | H]); subst n.

Ltac bits_unfold :=
  repeat first
    [ rewrite Z.lor_spec
    | rewrite Z.land_spec
    | rewrite Z.shiftr_spec by lia
    | rewrite Z.shiftl_spec by lia
    | rewrite Z.mod_pow2_bits_low by lia
    | rewrite Z.mod_pow2_bits_high by lia ].

Ltac bits_eval :=
  repeat match goal with
  | |- context [Z.testbit ?a ?k] =>
      let k' := eval vm_compute in k in
      progress change (Z.testbit a k) with (Z.testbit a k')
  end;
  repeat match goal with
  | |- context [Z.testbit (Zpos ?p) (Zpos ?k)] =>
      let v := eval vm_compute in (Z.testbit (Zpos p) (Zpos k)) in
      change (Z.testbit (Zpos p) (Zpos k)) with v
  | |- context [Z.testbit (Zpos ?p) 0] =>
      let v := eval vm_compute in (Z.testbit (Zpos p) 0) in
      change (Z.testbit (Zpos p) 0) with v
  | |- context [Z.testbit ?a (Zneg ?k)] =>
      change (Z.testbit a (Zneg k)) with false
  end;
  rewrite ?andb_true_r, ?andb_false_r, ?orb_false_r, ?orb_false_l.

Lemma mem16_ReverseBytes16 (x : Z) :
  0 <= x < 65536 -> mem16 (ReverseBytes16 x) = rev (mem16 x).
Proof.
  intros Hx. rewrite <- (Z.mod_small x (2 ^ 16)) by (change (2 ^ 16) with 65536; lia).
  clear Hx. unfold mem16, ReverseBytes16, uint16. cbn [rev app].
  change 65536 with (2 ^ 16).
  f_equal; [|f_equal]; apply Z_to_byte_bits; intros n Hn; index_cases n H;
    bits_unfold; bits_eval; reflexivity.
Qed.

Lemma mem32_ReverseBytes32 (x : Z) :
  0 <= x < 4294967296 -> mem32 (ReverseBytes32 x) = rev (mem32 x).
Proof.
  intros Hx.
  rewrite <- (Z.mod_small x (2 ^ 32)) by (change (2 ^ 32) with 4294967296; lia).
  clear Hx. unfold mem32, ReverseBytes32, uint32. cbn [rev app].
  change 4294967296 with (2 ^ 32).
  f_equal; [|f_equal; [|f_equal; [|f_equal]]]; apply Z_to_byte_bits;
    intros n Hn; index_cases n H; bits_unfold; bits_eval; reflexivity.
Qed.

(** ** Slices and copies *)

Lemma slice_ok (bs : list byte) (lo hi : nat) :
  (lo <= hi)%nat -> (hi <= List.length bs)%nat ->
  slice bs lo hi = Ok (firstn (hi - lo) (skipn lo bs)).
Proof.
  intros H1 H2. unfold slice.
  apply Nat.leb_le in H1. apply Nat.leb_le in H2. rewrite H1, H2. reflexivity.
Qed.

Lemma slice_fault (bs : list byte) (lo hi : nat) :
  (List.length bs < hi)%nat -> slice bs lo hi = Fault IndexOutOfRange.
Proof.
  intros H. unfold slice.
  apply Nat.leb_gt in H. rewrite H, andb_false_r. reflexivity.
Qed.

Lemma slice_length (bs s : list byte) (lo hi : nat) :
  slice bs lo hi = Ok s -> List.length s = (hi - lo)%nat.
Proof.
  unfold slice. destruct (Nat.leb lo hi) eqn:E1; [|discriminate].
  destruct (Nat.leb hi (List.length bs)) eqn:E2; [|discriminate].
  cbn [andb]. intros [= <-].
  apply Nat.leb_le in E1. apply Nat.leb_le in E2.
  rewrite length_firstn, length_skipn. lia.
Qed.

Lemma copy_full (dst src : list byte) :
  List.length dst = List.length src -> copy dst src = src.
Proof.
  intros H. unfold copy. rewrite H, firstn_all, <- H, skipn_all.
  apply app_nil_r.
Qed.

Lemma length_make (n : nat) : List.length (make n) = n.
Proof. apply repeat_length. Qed.

Ltac fields :=
  cbn [Signature MessageType TargetNameLen TargetNameMaxLen
       TargetNameBufferOffset NegotiateFlags ServerChallenge Reserved
       TargetInfoLen TargetInfoMaxLen TargetInfoBufferOffset Payload offset
       with_Signature with_MessageType with_TargetNameLen
       with_TargetNameMaxLen with_TargetNameBufferOffset with_NegotiateFlags
       with_ServerChallenge with_Reserved with_TargetInfoLen
       with_TargetInfoMaxLen with_TargetInfoBufferOffset with_Payload
       with_offset bind] in *.

(** ** UnMarshal in closed form *)

Lemma uint16_range (z : Z) : 0 <= uint16 z < 65536.
Proof. unfold uint16. apply Z.mod_pos_bound. lia. Qed.

Lemma uint32_range (z : Z) : 0 <= uint32 z < 4294967296.
Proof. unfold uint32. apply Z.mod_pos_bound. lia. Qed.

Lemma uint32_small (z : Z) : 0 <= z < 4294967296 -> uint32 z = z.
Proof. intros H. unfold uint32. apply Z.mod_small. exact H. Qed.

Lemma uint16_small (z : Z) : 0 <= z < 65536 -> uint16 z = z.
Proof. intros H. unfold uint16. apply Z.mod_small. exact H. Qed.

Lemma plen_of_header_range (bs : list byte) :
  0 <= plen_of (header_of bs) <= 131078.
Proof.
  unfold plen_of, header_of. fields.
  pose proof (uint16_range (bytes2Uint (firstn 2 (skipn 12 bs)) "<"%byte)).
  pose proof (uint16_range (bytes2Uint (firstn 2 (skipn 40 bs)) "<"%byte)).
  repeat match goal with |- context [if ?c then _ else _] => destruct c end;
    lia.
Qed.

Lemma UnMarshal_decoded (cm0 : ChallengeMsg) (bs : list byte) :
  List.length (Signature cm0) = 8%nat ->
  List.length (ServerChallenge cm0) = 8%nat ->
  List.length (Reserved cm0) = 8%nat ->
  48 + plen_of (header_of bs) <= Z.of_nat (List.length bs) ->
  UnMarshal cm0 bs = Ok (decoded bs).
Proof.
  intros L1 L2 L3 Hlen.
  pose proof (plen_of_header_range bs) as Hp.
  unfold UnMarshal.
  rewrite (slice_ok bs 0 8), (slice_ok bs 8 12), (slice_ok bs 12 14),
    (slice_ok bs 14 16), (slice_ok bs 16 20), (slice_ok bs 20 24),
    (slice_ok bs 24 32), (slice_ok bs 32 40), (slice_ok bs 40 42),
    (slice_ok bs 42 44), (slice_ok bs 44 48) by lia.
  fields.
  change (8 - 0)%nat with 8%nat. change (12 - 8)%nat with 4%nat.
  change (14 - 12)%nat with 2%nat. change (16 - 14)%nat with 2%nat.
  change (20 - 16)%nat with 4%nat. change (24 - 20)%nat with 4%nat.
  change (32 - 24)%nat with 8%nat. change (40 - 32)%nat with 8%nat.
  change (42 - 40)%nat with 2%nat. change (44 - 42)%nat with 2%nat.
  change (48 - 44)%nat with 4%nat. change (skipn 0 bs) with bs.
  rewrite !copy_full
    by (rewrite length_firstn, ?length_skipn; lia).
  match goal with
  | |- context [make (Z.to_nat ?p)] =>
      replace p with (plen_of (header_of bs))
  end.
  2:{ unfold plen_of, header_of. fields.
      repeat match goal with
             | |- context [if ?c then _ else _] => destruct c
             end; lia. }
  rewrite (uint32_small (plen_of (header_of bs))) by lia.
  rewrite uint32_small by (unfold ChallengeMsgPayloadOffset; lia).
  unfold ChallengeMsgPayloadOffset at 1 2.
  rewrite slice_ok by lia. fields.
  replace (Z.to_nat (48 + plen_of (header_of bs)) - Z.to_nat 48)%nat
    with (Z.to_nat (plen_of (header_of bs))) by lia.
  rewrite copy_full
    by (rewrite length_make, length_firstn, length_skipn; lia).
  reflexivity.
Qed.

Lemma UnMarshal_truncated (cm0 : ChallengeMsg) (bs : list byte) :
  Z.of_nat (List.length bs) < 48 + plen_of (header_of bs) ->
  UnMarshal cm0 bs = Fault IndexOutOfRange.
Proof.
  intros Hlen.
  pose proof (plen_of_header_range bs) as Hp.
  unfold UnMarshal. cbv zeta.
  repeat match goal with
  | |- bind (slice bs ?lo ?hi) _ = _ =>
      lazymatch hi with
      | Z.to_nat _ => fail
      | _ =>
        destruct (Nat.le_gt_cases hi (List.length bs));
        [ rewrite (slice_ok bs lo hi) by lia; cbn [bind]
        | rewrite (slice_fault bs lo hi) by lia; reflexivity ]
      end
  end.
  fields.
  match goal with
  | |- context [uint32 (ChallengeMsgPayloadOffset + uint32 ?p)] =>
      replace p with (plen_of (header_of bs))
  end.
  2:{ unfold plen_of, header_of. fields.
      change (12 - 8)%nat with 4%nat.
      change (14 - 12)%nat with 2%nat. change (16 - 14)%nat with 2%nat.
      change (20 - 16)%nat with 4%nat. change (24 - 20)%nat with 4%nat.
      change (42 - 40)%nat with 2%nat. change (44 - 42)%nat with 2%nat.
      change (48 - 44)%nat with 4%nat.
      repeat match goal with
             | |- context [if ?c then _ else _] => destruct c
             end; lia. }
  rewrite (uint32_small (plen_of (header_of bs))) by lia.
  rewrite uint32_small by (unfold ChallengeMsgPayloadOffset; lia).
  unfold ChallengeMsgPayloadOffset.
  rewrite slice_fault by lia. reflexivity.
Qed.

(** ** Decoding what [Marshal] wrote *)

Lemma bytes2Uint_mem16 (x : Z) :
  0 <= x < 65536 ->
  uint16 (bytes2Uint [Z_to_byte x; Z_to_byte (Z.shiftr x 8)] "<"%byte) = x.
Proof.
  intros Hx. change (bytes2Uint _ _) with (uint64 (le_value (mem16 x))).
  rewrite le_value_mem16 by exact Hx.
  unfold uint64. rewrite Z.mod_small by lia. apply uint16_small, Hx.
Qed.

Lemma bytes2Uint_mem32 (x : Z) :
  0 <= x < 4294967296 ->
  uint32 (bytes2Uint [Z_to_byte x; Z_to_byte (Z.shiftr x 8);
                      Z_to_byte (Z.shiftr x 16); Z_to_byte (Z.shiftr x 24)]
            "<"%byte) = x.
Proof.
  intros Hx. change (bytes2Uint _ _) with (uint64 (le_value (mem32 x))).
  rewrite le_value_mem32 by exact Hx.
  unfold uint64. rewrite Z.mod_small by lia. apply uint32_small, Hx.
Qed.

Ltac array8 l H :=
  do 8 (destruct l as [|? l]; [discriminate H|]);
  destruct l; [clear H | discriminate H].

Lemma Marshal_length (m : ChallengeMsg) (endian : byte) :
  wf m ->
  List.length (Marshal m endian) = (48 + List.length (Payload m))%nat.
Proof.
  intros [L1 L2 L3 _ _ _ _ _ _ _ _ _].
  unfold Marshal, Marshal_body.
  destruct (Byte.eqb endian ">"); cbn [snd]; fields;
    rewrite !length_app, L1, L2, L3; cbn [mem16 mem32 List.length]; lia.
Qed.

Lemma header_of_Marshal (m : ChallengeMsg) :
  wf m ->
  header_of (Marshal m "<"%byte)
  = with_offset (with_Payload m []) ChallengeMsgPayloadOffset.
Proof.
  intros [L1 L2 L3 R1 R2 R3 R4 R5 R6 R7 R8 _].
  destruct m as [sig mt tnl tnm tno nf sc rs til tim tio pl off].
  fields.
  array8 sig L1. array8 sc L2. array8 rs L3.
  unfold header_of, Marshal, Marshal_body.
  change (Byte.eqb "<" ">") with false. cbn iota. fields.
  unfold mem16, mem32. cbn [app snd firstn skipn].
  rewrite !bytes2Uint_mem16, !bytes2Uint_mem32 by assumption.
  reflexivity.
Qed.

Lemma decoded_Marshal (m : ChallengeMsg) :
  wf m -> consistent m ->
  decoded (Marshal m "<"%byte) = with_offset m ChallengeMsgPayloadOffset.
Proof.
  intros Hwf Hc. unfold decoded. rewrite header_of_Marshal by exact Hwf.
  replace (plen_of (with_offset (with_Payload m []) ChallengeMsgPayloadOffset))
    with (plen_of m) by reflexivity.
  rewrite <- Hc, Nat2Z.id.
  replace (skipn 48 (Marshal m "<"%byte)) with (Payload m).
  - rewrite firstn_all. destruct m; reflexivity.
  - destruct Hwf as [L1 L2 L3 _ _ _ _ _ _ _ _ _].
    destruct m as [sig mt tnl tnm tno nf sc rs til tim tio pl off].
    fields. array8 sig L1. array8 sc L2. array8 rs L3.
    reflexivity.
Qed.

Lemma wf_zero : wf ChallengeMsg_zero.
Proof. constructor; cbn; solve [reflexivity | lia]. Qed.

Lemma wf_decoded (bs : list byte) :
  48 + plen_of (header_of bs) <= Z.of_nat (List.length bs) ->
  wf (decoded bs).
Proof.
  intros Hlen. pose proof (plen_of_header_range bs) as Hp.
  constructor; unfold decoded, header_of; fields;
    try apply uint16_range; try apply uint32_range;
    try (rewrite length_firstn, ?length_skipn; lia).
  unfold ChallengeMsgPayloadOffset. lia.
Qed.

Lemma consistent_decoded (bs : list byte) :
  48 + plen_of (header_of bs) <= Z.of_nat (List.length bs) ->
  consistent (decoded bs).
Proof.
  intros Hlen. pose proof (plen_of_header_range bs) as Hp.
  unfold consistent.
  replace (plen_of (decoded bs)) with (plen_of (header_of bs)) by reflexivity.
  unfold decoded. fields. rewrite length_firstn, length_skipn. lia.
Qed.

Lemma UnMarshal_Ok_inv (cm0 m : ChallengeMsg) (bs : list byte) :
  wf cm0 -> UnMarshal cm0 bs = Ok m ->
  m = decoded bs /\ 48 + plen_of (header_of bs) <= Z.of_nat (List.length bs).
Proof.
  intros Hwf H.
  destruct (Z_lt_le_dec (Z.of_nat (List.length bs))
              (48 + plen_of (header_of bs))) as [Hlt | Hle].
  - rewrite UnMarshal_truncated in H by exact Hlt. discriminate H.
  - destruct Hwf as [L1 L2 L3 _ _ _ _ _ _ _ _ _].
    rewrite (UnMarshal_decoded cm0 bs L1 L2 L3 Hle) in H.
    injection H as <-. split; [reflexivity | exact Hle].
Qed.

(** ** Round trip and decode *)

(** C1 (as amended).  For every well-formed message [m] with consistent
    fields, decoding the little-endian encoding of [m] succeeds and restores
    every field of the wire format: signature, message type, both
    length/maxLength/offset triples, flags, server challenge, reserved bytes
    and payload.  For every [m] that is itself the result of a decode, the
    round trip yields [m]. *)
Theorem UnMarshal_Marshal_roundtrip (cm0 m : ChallengeMsg) :
  wf cm0 ->
  (wf m -> consistent m ->
   exists m', UnMarshal cm0 (Marshal m "<"%byte) = Ok m' /\ wire_eq m' m)
  /\
  (forall cm1 bs, wf cm1 -> UnMarshal cm1 bs = Ok m ->
   UnMarshal cm0 (Marshal m "<"%byte) = Ok m).
Proof.
  intros Hwf0.
  assert (Hgen : forall m, wf m -> consistent m ->
            UnMarshal cm0 (Marshal m "<"%byte)
            = Ok (with_offset m ChallengeMsgPayloadOffset)).
  { clear m. intros m Hwf Hc.
    rewrite <- decoded_Marshal by assumption.
    destruct Hwf0 as [L1 L2 L3 _ _ _ _ _ _ _ _ _].
    apply UnMarshal_decoded; try assumption.
    rewrite header_of_Marshal by exact Hwf.
    replace (plen_of (with_offset (with_Payload m []) ChallengeMsgPayloadOffset))
      with (plen_of m) by reflexivity.
    rewrite Marshal_length by exact Hwf. unfold consistent in Hc. lia. }
  split.
  - intros Hwf Hc. exists (with_offset m ChallengeMsgPayloadOffset).
    split; [apply Hgen; assumption | reflexivity].
  - intros cm1 bs Hwf1 Hdec.
    apply UnMarshal_Ok_inv in Hdec as [-> Hle]; [|exact Hwf1].
    rewrite Hgen by (apply wf_decoded || apply consistent_decoded; exact Hle).
    reflexivity.
Qed.

(** C1, counterexample: a message produced by construction, with consistent
    fields, that the round trip does not give back: its cursor is lost. *)
Lemma roundtrip_not_identity_after_setter :
  bind (NewChallengeMsg None) (fun cm => SetTargetName cm ["A"%byte])
  = Ok msg_name_A
  /\ wf msg_name_A /\ consistent msg_name_A
  /\ UnMarshal ChallengeMsg_zero (Marshal msg_name_A "<"%byte)
     <> Ok msg_name_A.
Proof.
  split; [reflexivity|]. split.
  { constructor; cbn; solve [reflexivity | lia]. }
  split; [reflexivity|].
  intros H. vm_compute in H. discriminate H.
Qed.

Lemma UnMarshal_Marshal_roundtrip_witness :
  (exists m', UnMarshal ChallengeMsg_zero (Marshal msg_name_A "<"%byte) = Ok m'
              /\ wire_eq m' msg_name_A)
  /\ UnMarshal ChallengeMsg_zero
       (Marshal (with_offset msg_name_A 48) "<"%byte)
     = Ok (with_offset msg_name_A 48).
Proof.
  assert (Hz : wf ChallengeMsg_zero)
    by (constructor; cbn; solve [reflexivity | lia]).
  split.
  - apply (proj1 (UnMarshal_Marshal_roundtrip ChallengeMsg_zero msg_name_A Hz)).
    + constructor; cbn; solve [reflexivity | lia].
    + reflexivity.
  - apply (proj2 (UnMarshal_Marshal_roundtrip ChallengeMsg_zero
                    (with_offset msg_name_A 48) Hz)
             ChallengeMsg_zero (Marshal msg_name_A "<"%byte) Hz).
    vm_compute. reflexivity.
Defined.

Lemma firstn_skipn_app (bs extra : list byte) (j k : nat) :
  (j + k <= List.length bs)%nat ->
  firstn k (skipn j (bs ++ extra)) = firstn k (skipn j bs).
Proof.
  intros H. rewrite skipn_app, firstn_app, length_skipn.
  replace (k - (List.length bs - j))%nat with 0%nat by lia.
  cbn [firstn]. apply app_nil_r.
Qed.

Lemma header_of_app (bs extra : list byte) :
  (48 <= List.length bs)%nat -> header_of (bs ++ extra) = header_of bs.
Proof.
  intros H. unfold header_of.
  change (firstn 8 (bs ++ extra)) with (firstn 8 (skipn 0 (bs ++ extra))).
  rewrite !firstn_skipn_app by lia. reflexivity.
Qed.

Lemma decoded_app (bs extra : list byte) :
  48 + plen_of (header_of bs) <= Z.of_nat (List.length bs) ->
  decoded (bs ++ extra) = decoded bs.
Proof.
  intros H. pose proof (plen_of_header_range bs) as Hp.
  unfold decoded. rewrite header_of_app by lia.
  rewrite firstn_skipn_app by lia. reflexivity.
Qed.

(** ** Slices with spare capacity *)

Lemma sub_backing (s : goslice) (lo hi : nat) :
  sub s lo hi = slice (backing s) lo hi.
Proof.
  unfold sub, reslice, slice.
  destruct (Nat.leb lo hi && Nat.leb hi (List.length (backing s)))%bool;
    reflexivity.
Qed.

Lemma UnMarshal_in_backing (cm : ChallengeMsg) (bs : goslice) :
  UnMarshal_in cm bs = UnMarshal cm (backing bs).
Proof.
  unfold UnMarshal_in, UnMarshal.
  repeat (rewrite sub_backing;
          match goal with
          | |- bind ?r _ = bind ?r _ =>
              destruct r; cbn [bind]; [|reflexivity]
          end).
  reflexivity.
Qed.

Lemma TargetInfo_in_backing (cm : ChallengeMsg) (sp : list byte) :
  TargetInfo_in cm sp = TargetInfo (with_Payload cm (Payload cm ++ sp)).
Proof.
  unfold TargetInfo_in, TargetInfo. fields.
  destruct (TargetInfoLen cm =? 0); [reflexivity|].
  rewrite sub_backing. reflexivity.
Qed.

Lemma TargetName_in_backing (dec : list byte -> string) (cm : ChallengeMsg)
    (sp : list byte) :
  TargetName_in dec cm sp = TargetName dec (with_Payload cm (Payload cm ++ sp)).
Proof.
  unfold TargetName_in, TargetName. fields.
  destruct (TargetNameLen cm =? 0); [reflexivity|].
  rewrite sub_backing. reflexivity.
Qed.




(** C5 (as amended).  After a successful decode of any byte buffer the
    cursor is 48, the start of the payload, whatever the length of the
    decoded payload, which is the length computed from the header. *)
Theorem UnMarshal_cursor (cm0 m : ChallengeMsg) (bs : list byte) :
  wf cm0 -> UnMarshal cm0 bs = Ok m ->
  offset m = ChallengeMsgPayloadOffset
  /\ Z.of_nat (List.length (Payload m)) = plen_of m.
Proof.
  intros Hwf H. apply UnMarshal_Ok_inv in H as [-> Hle]; [|exact Hwf].
  split; [reflexivity|]. apply consistent_decoded, Hle.
Qed.

Lemma UnMarshal_cursor_witness :
  offset (decoded buffer_name_A) = 48
  /\ Z.of_nat (List.length (Payload (decoded buffer_name_A)))
     = plen_of (decoded buffer_name_A).
Proof.
  apply (UnMarshal_cursor ChallengeMsg_zero (decoded buffer_name_A)
           buffer_name_A).
  - constructor; cbn; solve [reflexivity | lia].
  - vm_compute. reflexivity.
Defined.

(** C5, counterexample: on a buffer that carries one payload byte, the
    decoded message holds that byte and its cursor is 48, not 49. *)
Lemma UnMarshal_cursor_not_past_payload :
  exists m, NewChallengeMsg (Some buffer_name_A) = Ok m
            /\ Payload m = ["A"%byte] /\ offset m = 48
            /\ offset m <> 48 + Z.of_nat (List.length (Payload m)).
Proof.
  eexists. split; [vm_compute; reflexivity|].
  cbn. repeat split. discriminate.
Qed.

(** What a cursor of 48 means for a later setter: on the decoded
    message, [SetTargetInfo] records offset 48 for bytes that it appends
    after the target name, so both fields claim the same offset and the
    accessor [TargetInfo] returns bytes of the target name. *)
Lemma SetTargetInfo_after_UnMarshal_overlaps :
  exists m m',
    NewChallengeMsg (Some buffer_name_A) = Ok m
    /\ SetTargetInfo avIdsRev_table m [] = Ok m'
    /\ TargetNameBufferOffset m' = 48 /\ TargetInfoBufferOffset m' = 48
    /\ Payload m' = ["A"; x00; x00; x00; x00]%byte
    /\ TargetInfo m' = Ok (Some ["A"; x00; x00; x00]%byte).
Proof.
  eexists. eexists. split; [vm_compute; reflexivity|].
  split; [vm_compute; reflexivity|].
  repeat split.
Qed.

(** ** The setters *)

Lemma NewChallengeMsg_nil : NewChallengeMsg None = Ok empty_msg.
Proof. reflexivity. Qed.

Lemma length_encodeUTF16LE (bs : list byte) :
  List.length (encodeUTF16LE bs) = (2 * List.length bs)%nat.
Proof.
  unfold encodeUTF16LE. induction bs as [|b r IH]; cbn [flat_map app List.length].
  - reflexivity.
  - rewrite IH. lia.
Qed.

Lemma SetTargetName_Ok (cm : ChallengeMsg) (tname : list byte) :
  TargetNameLen cm = 0 ->
  SetTargetName cm tname
  = Ok (mkChallengeMsg (Signature cm) (MessageType cm)
          (uint16 (Z.of_nat (List.length (name_bytes cm tname))))
          (uint16 (Z.of_nat (List.length (name_bytes cm tname))))
          (offset cm) (NegotiateFlags cm) (ServerChallenge cm) (Reserved cm)
          (TargetInfoLen cm) (TargetInfoMaxLen cm) (TargetInfoBufferOffset cm)
          (Payload cm ++ name_bytes cm tname)
          (uint32 (offset cm
                   + uint32 (uint16 (Z.of_nat
                                       (List.length (name_bytes cm tname))))))).
Proof.
  intros H0. unfold SetTargetName, name_bytes. rewrite H0. cbn [Z.eqb negb].
  destruct (negb (Z.land (NegotiateFlags cm) NEGOTIATE_UNICODE_CHARSET =? 0));
    fields; rewrite ?length_encodeUTF16LE, ?Nat2Z.inj_mul; reflexivity.
Qed.

Lemma SetTargetName_Fault (cm : ChallengeMsg) (tname : list byte) :
  TargetNameLen cm <> 0 ->
  SetTargetName cm tname
  = Fault (PanicMsg "Can't set TargetName field repeatedly").
Proof.
  intros H. unfold SetTargetName.
  apply Z.eqb_neq in H. rewrite H. reflexivity.
Qed.

Lemma SetTargetInfo_Fault (avIdsRev : string -> byte) (cm : ChallengeMsg)
    (tinfo : list (string * value)) :
  TargetInfoLen cm <> 0 ->
  SetTargetInfo avIdsRev cm tinfo
  = Fault (PanicMsg "Can't set TargetInfo field repeatedly").
Proof.
  intros H. unfold SetTargetInfo.
  apply Z.eqb_neq in H. rewrite H. reflexivity.
Qed.

(** A successful [SetTargetInfo], seen through the bytes [bs] it built. *)
Lemma SetTargetInfo_Ok_inv (avIdsRev : string -> byte) (cm cm' : ChallengeMsg)
    (tinfo : list (string * value)) :
  SetTargetInfo avIdsRev cm tinfo = Ok cm' ->
  exists bs,
    avpair_loop avIdsRev [] tinfo = Ok bs
    /\ TargetInfoLen cm = 0
    /\ cm' = mkChallengeMsg (Signature cm) (MessageType cm)
               (TargetNameLen cm) (TargetNameMaxLen cm)
               (TargetNameBufferOffset cm)
               (Z.lor (NegotiateFlags cm) NEGOTIATE_TARGET_INFO)
               (ServerChallenge cm) (Reserved cm)
               (uint16 (Z.of_nat (List.length bs + 4)))
               (uint16 (Z.of_nat (List.length bs + 4)))
               (offset cm)
               (Payload cm ++ bs ++ [x00; x00; x00; x00])
               (uint32 (offset cm
                        + uint32 (uint16 (Z.of_nat (List.length bs + 4))))).
Proof.
  unfold SetTargetInfo.
  destruct (Z.eqb_spec (TargetInfoLen cm) 0) as [E|E]; [|discriminate].
  cbn [negb].
  destruct (avpair_loop avIdsRev [] tinfo) as [bs|f]; [|discriminate].
  fields. intros [= <-]. exists bs. rewrite length_app. cbn [List.length].
  repeat split. exact E.
Qed.

Ltac name_set H :=
  match type of H with
  | SetTargetName ?cm ?b = Ok ?cm' =>
      let E := fresh "E" in
      destruct (Z.eq_dec (TargetNameLen cm) 0) as [E|E];
      [ rewrite (SetTargetName_Ok cm b E) in H; injection H as <-; fields
      | rewrite (SetTargetName_Fault cm b E) in H; discriminate H ]
  end.

Ltac info_set H :=
  let bs := fresh "bs" in
  let L := fresh "L" in
  let E := fresh "E" in
  apply SetTargetInfo_Ok_inv in H as (bs & L & E & ->); fields.

(** C2 (as amended).  [SetTargetName] faults on every instance whose
    recorded target-name length is non-zero, hence when re-invoked after a
    call that appended between 1 and 65535 bytes; [SetTargetInfo] faults on
    every instance whose recorded target-info length is non-zero, hence when
    re-invoked after a call that appended fewer than 65536 bytes;
    [SetServerChallenge] has no single-shot guard: re-invoking it succeeds
    and overwrites the challenge. *)
Theorem setters_single_shot (avIdsRev : string -> byte) (rnd : list byte)
    (cm : ChallengeMsg) :
  (forall b b' cm1,
     SetTargetName cm b = Ok cm1 ->
     0 < Z.of_nat (List.length (Payload cm1))
         - Z.of_nat (List.length (Payload cm)) < 65536 ->
     SetTargetName cm1 b'
     = Fault (PanicMsg "Can't set TargetName field repeatedly"))
  /\
  (forall t t' cm1,
     SetTargetInfo avIdsRev cm t = Ok cm1 ->
     Z.of_nat (List.length (Payload cm1))
     - Z.of_nat (List.length (Payload cm)) < 65536 ->
     SetTargetInfo avIdsRev cm1 t'
     = Fault (PanicMsg "Can't set TargetInfo field repeatedly"))
  /\
  (forall c1 c2,
     List.length (ServerChallenge cm) = 8%nat ->
     List.length c2 = 8%nat ->
     exists cm1 cm2,
       SetServerChallenge rnd cm c1 = Ok cm1
       /\ SetServerChallenge rnd cm1 (Some c2) = Ok cm2
       /\ ServerChallenge cm2 = c2).
Proof.
  split; [|split].
  - intros b b' cm1 H Hgrow. name_set H.
    apply SetTargetName_Fault. fields.
    rewrite length_app in Hgrow. rewrite uint16_small by lia. lia.
  - intros t t' cm1 H Hgrow. info_set H.
    apply SetTargetInfo_Fault. fields.
    rewrite !length_app in Hgrow. cbn [List.length] in Hgrow.
    rewrite uint16_small by lia. lia.
  - intros c1 c2 L8 Lc.
    assert (Hlen : forall src,
              List.length (copy (ServerChallenge cm) src) = 8%nat).
    { intros src. unfold copy.
      rewrite length_app, length_firstn, length_skipn. lia. }
    destruct c1 as [c1|]; cbn [SetServerChallenge];
      eexists; eexists; (split; [reflexivity|]); (split; [reflexivity|]);
      fields; apply copy_full; rewrite Hlen, Lc; reflexivity.
Qed.

Lemma setters_single_shot_witness :
  SetTargetName msg_name_A ["B"%byte]
  = Fault (PanicMsg "Can't set TargetName field repeatedly")
  /\ SetTargetInfo avIdsRev_table msg_info_empty []
     = Fault (PanicMsg "Can't set TargetInfo field repeatedly")
  /\ exists cm1 cm2,
       SetServerChallenge (make 8) empty_msg None = Ok cm1
       /\ SetServerChallenge (make 8) cm1 (Some (repeat xff 8)) = Ok cm2
       /\ ServerChallenge cm2 = repeat xff 8.
Proof.
  pose proof (setters_single_shot avIdsRev_table (make 8) empty_msg)
    as (Hn & Hi & Hc).
  split; [|split].
  - apply (Hn ["A"%byte] ["B"%byte] msg_name_A).
    + reflexivity.
    + cbn. lia.
  - apply (Hi [] [] msg_info_empty).
    + reflexivity.
    + cbn. lia.
  - apply (Hc None (repeat xff 8)); reflexivity.
Defined.

(** C2, counterexample: the server challenge is set twice on one instance
    and neither call faults. *)
Lemma SetServerChallenge_twice_succeeds :
  exists cm1 cm2,
    SetServerChallenge (make 8) empty_msg (Some (repeat x11 8)) = Ok cm1
    /\ SetServerChallenge (make 8) cm1 (Some (repeat x22 8)) = Ok cm2
    /\ ServerChallenge cm1 = repeat x11 8
    /\ ServerChallenge cm2 = repeat x22 8.
Proof.
  eexists. eexists. repeat split.
Qed.

(** The same for the target name: after the empty name is set, a second
    [SetTargetName] is accepted. *)
Lemma SetTargetName_twice_after_empty :
  exists cm1 cm2,
    SetTargetName empty_msg [] = Ok cm1
    /\ SetTargetName cm1 ["A"%byte] = Ok cm2.
Proof.
  eexists. eexists. split; reflexivity.
Qed.

(** C3 (as amended).  The invariant holds for both triples of the empty
    message.  A setter run on a message whose cursor is non-zero leaves the
    other triple as it was and records the cursor, a non-zero offset, in its
    own triple, so that the invariant holds for that triple exactly when the
    recorded length is non-zero.  Decode takes both triples from the header
    bytes as they are. *)
Theorem absent_iff_after_operations (avIdsRev : string -> byte) :
  (absent_iff (TargetNameLen empty_msg) (TargetNameBufferOffset empty_msg)
   /\ absent_iff (TargetInfoLen empty_msg) (TargetInfoBufferOffset empty_msg))
  /\
  (forall cm b cm',
     offset cm <> 0 -> SetTargetName cm b = Ok cm' ->
     TargetNameBufferOffset cm' = offset cm
     /\ (absent_iff (TargetNameLen cm') (TargetNameBufferOffset cm')
         <-> TargetNameLen cm' <> 0)
     /\ TargetInfoLen cm' = TargetInfoLen cm
     /\ TargetInfoBufferOffset cm' = TargetInfoBufferOffset cm)
  /\
  (forall cm t cm',
     offset cm <> 0 -> SetTargetInfo avIdsRev cm t = Ok cm' ->
     TargetInfoBufferOffset cm' = offset cm
     /\ (absent_iff (TargetInfoLen cm') (TargetInfoBufferOffset cm')
         <-> TargetInfoLen cm' <> 0)
     /\ TargetNameLen cm' = TargetNameLen cm
     /\ TargetNameBufferOffset cm' = TargetNameBufferOffset cm)
  /\
  (forall cm0 bs m,
     wf cm0 -> UnMarshal cm0 bs = Ok m ->
     TargetNameLen m
     = uint16 (bytes2Uint (firstn 2 (skipn 12 bs)) "<"%byte)
     /\ TargetNameBufferOffset m
        = uint32 (bytes2Uint (firstn 4 (skipn 16 bs)) "<"%byte)
     /\ TargetInfoLen m
        = uint16 (bytes2Uint (firstn 2 (skipn 40 bs)) "<"%byte)
     /\ TargetInfoBufferOffset m
        = uint32 (bytes2Uint (firstn 4 (skipn 44 bs)) "<"%byte)).
Proof.
  split; [|split; [|split]].
  - split; split; reflexivity.
  - intros cm b cm' Hoff H. name_set H.
    repeat split; unfold absent_iff in *; intuition congruence.
  - intros cm t cm' Hoff H. info_set H.
    repeat split; unfold absent_iff in *; intuition congruence.
  - intros cm0 bs m Hwf H.
    apply UnMarshal_Ok_inv in H as [-> _]; [|exact Hwf].
    repeat split.
Qed.

Lemma absent_iff_after_operations_witness :
  (absent_iff (TargetNameLen msg_name_A) (TargetNameBufferOffset msg_name_A)
   <-> TargetNameLen msg_name_A <> 0)
  /\ (absent_iff (TargetInfoLen msg_info_empty)
        (TargetInfoBufferOffset msg_info_empty)
      <-> TargetInfoLen msg_info_empty <> 0)
  /\ TargetNameLen (decoded buffer_name_A)
     = uint16 (bytes2Uint (firstn 2 (skipn 12 buffer_name_A)) "<"%byte).
Proof.
  pose proof (absent_iff_after_operations avIdsRev_table)
    as (_ & Hn & Hi & Hd).
  split; [|split].
  - apply (Hn empty_msg ["A"%byte] msg_name_A).
    + cbn. discriminate.
    + reflexivity.
  - apply (Hi empty_msg [] msg_info_empty).
    + cbn. discriminate.
    + reflexivity.
  - apply (Hd ChallengeMsg_zero buffer_name_A (decoded buffer_name_A)).
    + constructor; cbn; solve [reflexivity | lia].
    + vm_compute. reflexivity.
Defined.

(** C3, counterexample: [SetTargetName] with the empty byte string on the
    empty message records length 0 at offset 48. *)
Lemma SetTargetName_empty_breaks_absent_iff :
  exists cm',
    SetTargetName empty_msg [] = Ok cm'
    /\ TargetNameLen cm' = 0 /\ TargetNameBufferOffset cm' = 48
    /\ ~ absent_iff (TargetNameLen cm') (TargetNameBufferOffset cm').
Proof.
  eexists. split; [reflexivity|]. cbn. repeat split.
  unfold absent_iff. intros [H _]. specialize (H eq_refl). discriminate H.
Qed.

(** Decode breaks the invariant as well, when the header does. *)
Lemma UnMarshal_keeps_header_triples :
  exists m,
    NewChallengeMsg (Some (firstn 12 buffer_name_A ++ repeat x00 4
                             ++ skipn 16 buffer_name_A)) = Ok m
    /\ ~ absent_iff (TargetNameLen m) (TargetNameBufferOffset m).
Proof.
  eexists. split; [vm_compute; reflexivity|].
  unfold absent_iff. cbn. intros [H _]. specialize (H eq_refl). discriminate H.
Qed.

(** C7 (as amended).  When the unicode flag is set, the target name is not
    yet set and twice the length of the input [b] is at most 65535,
    [SetTargetName] records length [2 * len b], the same maximal length and
    the cursor before the call as offset, appends the UTF-16LE encoding of
    [b] to the payload and advances the cursor by the encoded length (within
    32 bits).  On the empty message with the unicode flag set, the name
    DOMAIN gives length 12, offset 48 and the UTF-16LE bytes of DOMAIN as
    payload. *)
Theorem SetTargetName_unicode :
  (forall cm b,
     Z.land (NegotiateFlags cm) NEGOTIATE_UNICODE_CHARSET <> 0 ->
     TargetNameLen cm = 0 ->
     2 * Z.of_nat (List.length b) <= 65535 ->
     exists cm',
       SetTargetName cm b = Ok cm'
       /\ TargetNameLen cm' = 2 * Z.of_nat (List.length b)
       /\ TargetNameMaxLen cm' = TargetNameLen cm'
       /\ TargetNameBufferOffset cm' = offset cm
       /\ Payload cm' = Payload cm ++ encodeUTF16LE b
       /\ Z.of_nat (List.length (encodeUTF16LE b))
          = 2 * Z.of_nat (List.length b)
       /\ offset cm'
          = uint32 (offset cm + Z.of_nat (List.length (encodeUTF16LE b))))
  /\
  (exists cm',
     SetTargetName (with_NegotiateFlags empty_msg NEGOTIATE_UNICODE_CHARSET)
       (list_byte_of_string "DOMAIN") = Ok cm'
     /\ TargetNameLen cm' = 12 /\ TargetNameBufferOffset cm' = 48
     /\ Payload cm' = encodeUTF16LE (list_byte_of_string "DOMAIN")
     /\ Payload cm'
        = ["D"; x00; "O"; x00; "M"; x00; "A"; x00; "I"; x00; "N"; x00]%byte
     /\ offset cm' = 60).
Proof.
  split.
  - intros cm b Hu H0 Hlen.
    rewrite (SetTargetName_Ok cm b H0). eexists. split; [reflexivity|].
    fields. unfold name_bytes.
    apply Z.eqb_neq in Hu. rewrite Hu. cbn [negb].
    rewrite length_encodeUTF16LE, Nat2Z.inj_mul.
    change (Z.of_nat 2) with 2.
    rewrite uint16_small by lia. rewrite (uint32_small (2 * _)) by lia.
    repeat split.
  - eexists. split; [reflexivity|]. repeat split.
Qed.

Lemma SetTargetName_unicode_witness :
  exists cm',
    SetTargetName (with_NegotiateFlags empty_msg 1) ["A"%byte] = Ok cm'
    /\ TargetNameLen cm' = 2 /\ offset cm' = 50.
Proof.
  destruct (proj1 SetTargetName_unicode (with_NegotiateFlags empty_msg 1)
              ["A"%byte])
    as (cm' & H & Hl & _ & _ & _ & _ & Ho).
  - cbn. discriminate.
  - reflexivity.
  - cbn. lia.
  - exists cm'. split; [exact H|]. split; [exact Hl|]. rewrite Ho. reflexivity.
Defined.

(** C7, counterexample: with the unicode flag set, a name of 32768 bytes is
    recorded with length 0, not 65536, and the cursor stays where it was
    although 65536 bytes were appended. *)
Lemma SetTargetName_unicode_length_wraps :
  exists cm',
    SetTargetName (with_NegotiateFlags empty_msg NEGOTIATE_UNICODE_CHARSET)
      (repeat "A"%byte (Z.to_nat 32768)) = Ok cm'
    /\ 2 * Z.of_nat (List.length (repeat "A"%byte (Z.to_nat 32768))) = 65536
    /\ TargetNameLen cm' = 0
    /\ offset cm' = 48
    /\ Z.of_nat (List.length (Payload cm')) = 65536.
Proof.
  rewrite SetTargetName_Ok by reflexivity.
  eexists. split; [reflexivity|]. fields.
  unfold name_bytes. cbn [NegotiateFlags with_NegotiateFlags empty_msg].
  change (negb (Z.land NEGOTIATE_UNICODE_CHARSET NEGOTIATE_UNICODE_CHARSET
                =? 0)) with true. cbn iota.
  rewrite length_app, length_encodeUTF16LE, repeat_length.
  repeat split.
Qed.

(** C9 (as amended).  On a message whose cursor is at least 48 and at least
    131072 below the 32-bit limit, when the two setters run one directly
    after the other, in either order, the field set second starts where the
    field set first ends: the offsets are non-decreasing in setting order, strictly
    increasing when the first field recorded a non-zero length, and the byte
    ranges of the two fields within the payload do not overlap. *)
Theorem setters_offsets_ordered (avIdsRev : string -> byte)
    (cm : ChallengeMsg) (b : list byte) (t : list (string * value)) :
  48 <= offset cm <= 4294836224 ->
  (forall cm1 cm2,
     SetTargetName cm b = Ok cm1 -> SetTargetInfo avIdsRev cm1 t = Ok cm2 ->
     TargetInfoBufferOffset cm2
     = TargetNameBufferOffset cm2 + TargetNameLen cm2
     /\ TargetNameBufferOffset cm2 <= TargetInfoBufferOffset cm2
     /\ (TargetNameLen cm2 <> 0 ->
         TargetNameBufferOffset cm2 < TargetInfoBufferOffset cm2)
     /\ (TargetNameBufferOffset cm2 - 48) + TargetNameLen cm2
        <= TargetInfoBufferOffset cm2 - 48)
  /\
  (forall cm1 cm2,
     SetTargetInfo avIdsRev cm t = Ok cm1 -> SetTargetName cm1 b = Ok cm2 ->
     TargetNameBufferOffset cm2
     = TargetInfoBufferOffset cm2 + TargetInfoLen cm2
     /\ TargetInfoBufferOffset cm2 <= TargetNameBufferOffset cm2
     /\ (TargetInfoLen cm2 <> 0 ->
         TargetInfoBufferOffset cm2 < TargetNameBufferOffset cm2)
     /\ (TargetInfoBufferOffset cm2 - 48) + TargetInfoLen cm2
        <= TargetNameBufferOffset cm2 - 48).
Proof.
  intros Hoff. split.
  - intros cm1 cm2 H1 H2. name_set H1. info_set H2.
    pose proof (uint16_range (Z.of_nat (List.length (name_bytes cm b)))).
    rewrite (uint32_small (uint16 _)) by lia.
    rewrite uint32_small by lia. lia.
  - intros cm1 cm2 H1 H2. info_set H1. name_set H2.
    pose proof (uint16_range (Z.of_nat (List.length bs + 4))).
    rewrite (uint32_small (uint16 _)) by lia.
    rewrite uint32_small by lia. lia.
Qed.

Lemma setters_offsets_ordered_witness :
  TargetNameBufferOffset msg_name_then_info
  < TargetInfoBufferOffset msg_name_then_info
  /\ TargetInfoBufferOffset msg_info_then_name
     < TargetNameBufferOffset msg_info_then_name.
Proof.
  assert (Hoff : 48 <= offset empty_msg <= 4294836224) by (cbn; lia).
  pose proof (setters_offsets_ordered avIdsRev_table empty_msg ["A"%byte] []
                Hoff) as (Hni & Hin).
  split.
  - apply (Hni msg_name_A msg_name_then_info); try reflexivity.
    cbn. discriminate.
  - apply (Hin msg_info_empty msg_info_then_name); try reflexivity.
    cbn. discriminate.
Defined.

(** C9, counterexample: the empty target name, then the target info: both
    setters have been invoked and the two offsets are equal. *)
Lemma setters_offsets_equal_after_empty_name :
  exists cm1 cm2,
    SetTargetName empty_msg [] = Ok cm1
    /\ SetTargetInfo avIdsRev_table cm1 [] = Ok cm2
    /\ TargetNameBufferOffset cm2 = 48
    /\ TargetInfoBufferOffset cm2 = 48
    /\ ~ TargetNameBufferOffset cm2 < TargetInfoBufferOffset cm2
    /\ ~ TargetInfoBufferOffset cm2 < TargetNameBufferOffset cm2.
Proof.
  eexists. eexists. split; [reflexivity|]. split; [reflexivity|].
  cbn. repeat split; lia.
Qed.

(** C9, counterexample in full: after the empty target name the two offsets
    are equal; and with a [Reset] between the two setters the cursor is
    rewound while the first field stays recorded, so that both fields are
    recorded at offset 48 and their ranges, of 2 and 4 bytes, overlap. *)
Lemma setters_offsets_not_ordered :
  (exists cm1 cm2,
     SetTargetName empty_msg [] = Ok cm1
     /\ SetTargetInfo avIdsRev_table cm1 [] = Ok cm2
     /\ TargetNameBufferOffset cm2 = 48
     /\ TargetInfoBufferOffset cm2 = 48)
  /\
  (exists cm1 cm2,
     SetTargetName empty_msg ["A"; "B"]%byte = Ok cm1
     /\ SetTargetInfo avIdsRev_table (Reset cm1) [] = Ok cm2
     /\ TargetNameBufferOffset cm2 = 48 /\ TargetNameLen cm2 = 2
     /\ TargetInfoBufferOffset cm2 = 48 /\ TargetInfoLen cm2 = 4).
Proof.
  split.
  - exists (mkChallengeMsg ["N"; "T"; "L"; "M"; "S"; "S"; "P"; x00]%byte 2
              0 0 48 0 (make 8) (make 8) 0 0 0 [] 48).
    exists (mkChallengeMsg ["N"; "T"; "L"; "M"; "S"; "S"; "P"; x00]%byte 2
              0 0 48 8388608 (make 8) (make 8) 4 4 48
              [x00; x00; x00; x00]%byte 52).
    repeat split; vm_compute; reflexivity.
  - exists (mkChallengeMsg ["N"; "T"; "L"; "M"; "S"; "S"; "P"; x00]%byte 2
              2 2 48 0 (make 8) (make 8) 0 0 0 ["A"; "B"]%byte 50).
    exists (mkChallengeMsg ["N"; "T"; "L"; "M"; "S"; "S"; "P"; x00]%byte 2
              2 2 48 8388608 (make 8) (make 8) 4 4 48
              [x00; x00; x00; x00]%byte 52).
    repeat split; vm_compute; reflexivity.
Qed.

(** ** The attribute pairs of [SetTargetInfo] *)

Lemma length_list_byte_of_string (s : string) :
  List.length (list_byte_of_string s) = String.length s.
Proof.
  induction s as [|a s IH]; [reflexivity|].
  cbn [String.length]. rewrite <- IH. reflexivity.
Qed.

Lemma length_bytes_mem16 (n : Z) :
  [Z_to_byte (Z.land n 255); Z_to_byte (Z.shiftr (Z.land n 65280) 8)]
  = mem16 n.
Proof.
  unfold mem16.
  f_equal; [|f_equal]; apply Z_to_byte_bits; intros k Hk; index_cases k H;
    bits_unfold; bits_eval; reflexivity.
Qed.

Section AttributePairs.

(** The table from attribute name to identifier. *)
Variable avIdsRev : string -> byte.

Lemma avpair_step_encoding (acc : list byte) (kv : string * value) :
  avIdsRev (fst kv) = x00
  \/ value_fits (avIdsRev (fst kv)) (snd kv) = true ->
  avpair_step avIdsRev acc kv
  = Ok (acc ++ (if Byte.eqb (avIdsRev (fst kv)) x00 then []
                else avpair_encoding (avIdsRev (fst kv)) (snd kv))).
Proof.
  destruct kv as [k v]. cbn [fst snd]. unfold avpair_step.
  destruct (Byte.eqb (avIdsRev k) x00) eqn:E0.
  - intros _. rewrite app_nil_r. reflexivity.
  - intros [H | H].
    { rewrite H in E0. discriminate E0. }
    unfold avpair_encoding.
    replace (negb (Byte.eqb (avIdsRev k) x06)
             && negb (Byte.eqb (avIdsRev k) x07)
             && negb (Byte.eqb (avIdsRev k) x08)
             && negb (Byte.eqb (avIdsRev k) x0a))%bool
      with (negb (is_raw (avIdsRev k)))
      by (unfold is_raw; rewrite !negb_orb; reflexivity).
    destruct v as [s | b |]; cbn [value_fits] in H; [| |discriminate H].
    + rewrite H. apply negb_true_iff in H. rewrite H.
      cbn [value_content]. rewrite length_bytes_mem16.
      rewrite length_encodeUTF16LE, length_list_byte_of_string.
      rewrite Nat2Z.inj_mul, Z.mul_comm. change (Z.of_nat 2) with 2.
      rewrite <- !app_assoc. reflexivity.
    + rewrite H. cbn [negb value_content]. rewrite length_bytes_mem16.
      rewrite <- !app_assoc. reflexivity.
Qed.

Lemma avpair_loop_encoding (tinfo : list (string * value)) :
  well_typed avIdsRev tinfo ->
  forall acc,
    avpair_loop avIdsRev acc tinfo
    = Ok (acc ++ flat_map
                   (fun kv =>
                      if Byte.eqb (avIdsRev (fst kv)) x00 then []
                      else avpair_encoding (avIdsRev (fst kv)) (snd kv))
                   tinfo).
Proof.
  induction 1 as [|kv rest Hkv _ IH]; intros acc; cbn [avpair_loop flat_map].
  - rewrite app_nil_r. reflexivity.
  - rewrite (avpair_step_encoding acc kv Hkv). cbn [bind].
    rewrite IH, <- app_assoc. reflexivity.
Qed.

(** C8 (as amended).  For every input mapping whose values have the dynamic
    type their identifier asks for, [SetTargetInfo] succeeds on a message
    whose target info is not yet set and appends to the payload, for each
    entry with a known identifier and in iteration order, the two-byte
    identifier, the two-byte little-endian length (modulo 65536) and the
    value bytes, then the terminator; entries with an unknown key contribute
    nothing. *)
Theorem SetTargetInfo_encoding (cm : ChallengeMsg)
    (tinfo : list (string * value)) :
  TargetInfoLen cm = 0 ->
  well_typed avIdsRev tinfo ->
  exists cm',
    SetTargetInfo avIdsRev cm tinfo = Ok cm'
    /\ Payload cm' = Payload cm ++ AVPairs_encoding avIdsRev tinfo.
Proof.
  intros H0 Hwt. unfold SetTargetInfo. rewrite H0. cbn [Z.eqb negb].
  rewrite (avpair_loop_encoding tinfo Hwt []). cbn [bind app].
  eexists. split; [reflexivity|]. reflexivity.
Qed.

End AttributePairs.

Lemma SetTargetInfo_encoding_witness :
  exists cm',
    SetTargetInfo avIdsRev_table empty_msg sample_tinfo = Ok cm'
    /\ Payload cm'
       = [x01; x00; x04; x00; "A"; x00; "B"; x00;
          x07; x00; x08; x00; x01; x02; x03; x04; x05; x06; x07; x08;
          x00; x00; x00; x00]%byte.
Proof.
  apply (SetTargetInfo_encoding avIdsRev_table empty_msg sample_tinfo).
  - reflexivity.
  - unfold well_typed, sample_tinfo.
    repeat (apply Forall_cons;
            [first [left; reflexivity | right; reflexivity]|]).
    apply Forall_nil.
Defined.

(** C8, counterexample: a mapping whose timestamp entry, a raw identifier,
    carries a string: the type assertion of the loop faults and nothing is
    encoded. *)
Lemma SetTargetInfo_type_assertion_faults :
  avIdsRev_table "MsvAvTimestamp" = x07
  /\ SetTargetInfo avIdsRev_table empty_msg
       [("MsvAvTimestamp"%string, VString "x")]
     = Fault TypeAssertion.
Proof.
  split; reflexivity.
Qed.

(** ** Marshal *)

Lemma Marshal_little_endian (cm : ChallengeMsg) (endian : byte) :
  endian <> ">"%byte ->
  Marshal cm endian
  = Signature cm ++ mem32 (MessageType cm)
    ++ mem16 (TargetNameLen cm) ++ mem16 (TargetNameMaxLen cm)
    ++ mem32 (TargetNameBufferOffset cm)
    ++ mem32 (NegotiateFlags cm)
    ++ ServerChallenge cm ++ Reserved cm
    ++ mem16 (TargetInfoLen cm) ++ mem16 (TargetInfoMaxLen cm)
    ++ mem32 (TargetInfoBufferOffset cm)
    ++ Payload cm.
Proof.
  intros H. unfold Marshal, Marshal_body.
  destruct (Byte.eqb endian ">") eqn:E.
  - apply Byte.byte_dec_bl in E. contradiction.
  - cbn [snd app]. rewrite <- !app_assoc. reflexivity.
Qed.

(** C6.  The little-endian encoding is the signature, the memory images of
    the integer fields, the server challenge, the reserved bytes and the
    payload, in wire order; the big-endian encoding is the same sequence with
    the bytes of each integer field (message type, negotiate flags, both
    length/maxLength/offset triples) reversed, and with the signature, the
    server challenge, the reserved bytes and the payload unchanged. *)
Theorem Marshal_big_endian (cm : ChallengeMsg) :
  wf cm ->
  Marshal cm "<"%byte
  = Signature cm ++ mem32 (MessageType cm)
    ++ mem16 (TargetNameLen cm) ++ mem16 (TargetNameMaxLen cm)
    ++ mem32 (TargetNameBufferOffset cm)
    ++ mem32 (NegotiateFlags cm)
    ++ ServerChallenge cm ++ Reserved cm
    ++ mem16 (TargetInfoLen cm) ++ mem16 (TargetInfoMaxLen cm)
    ++ mem32 (TargetInfoBufferOffset cm)
    ++ Payload cm
  /\
  Marshal cm ">"%byte
  = Signature cm ++ rev (mem32 (MessageType cm))
    ++ rev (mem16 (TargetNameLen cm)) ++ rev (mem16 (TargetNameMaxLen cm))
    ++ rev (mem32 (TargetNameBufferOffset cm))
    ++ rev (mem32 (NegotiateFlags cm))
    ++ ServerChallenge cm ++ Reserved cm
    ++ rev (mem16 (TargetInfoLen cm)) ++ rev (mem16 (TargetInfoMaxLen cm))
    ++ rev (mem32 (TargetInfoBufferOffset cm))
    ++ Payload cm.
Proof.
  intros [_ _ _ R1 R2 R3 R4 R5 R6 R7 R8 _]. split.
  - apply Marshal_little_endian. discriminate.
  - unfold Marshal, Marshal_body.
    change (Byte.eqb ">" ">") with true. cbn iota. fields. cbn [snd].
    rewrite !mem32_ReverseBytes32, !mem16_ReverseBytes16 by assumption.
    cbn [app]. rewrite <- !app_assoc. reflexivity.
Qed.

Lemma Marshal_big_endian_witness :
  Marshal msg_name_A ">"%byte
  = ["N"; "T"; "L"; "M"; "S"; "S"; "P"; x00;
     x00; x00; x00; x02;
     x00; x01;  x00; x01;  x00; x00; x00; x30;
     x00; x00; x00; x00;
     x00; x00; x00; x00; x00; x00; x00; x00;
     x00; x00; x00; x00; x00; x00; x00; x00;
     x00; x00;  x00; x00;  x00; x00; x00; x00;
     "A"]%byte.
Proof.
  apply (proj2 (Marshal_big_endian msg_name_A
                  ltac:(constructor; cbn; solve [reflexivity | lia]))).
Defined.

Lemma store_length (h : heap) (a pos : nat) (src : list byte) :
  List.length (store h a pos src) = List.length h.
Proof.
  revert a. induction h as [|arr rest IH]; intros [|a]; cbn [store List.length];
    try reflexivity. rewrite IH. reflexivity.
Qed.

Lemma store_other (h : heap) (a pos : nat) (src : list byte) (b : nat) :
  b <> a -> nth b (store h a pos src) [] = nth b h [].
Proof.
  revert a b. induction h as [|arr rest IH]; intros [|a] [|b] Hne;
    cbn [store nth]; try reflexivity.
  - contradiction.
  - apply IH. lia.
Qed.

Lemma store_same (h : heap) (a pos : nat) (src : list byte) :
  (a < List.length h)%nat ->
  nth a (store h a pos src) []
  = firstn pos (nth a h []) ++ src
    ++ skipn (pos + List.length src) (nth a h []).
Proof.
  revert a. induction h as [|arr rest IH]; intros [|a] Ha;
    cbn [store nth List.length] in *; try lia; try reflexivity.
  apply IH. lia.
Qed.

Lemma store_nil (h : heap) (a pos : nat) : store h a pos [] = h.
Proof.
  revert a. induction h as [|arr rest IH]; intros [|a]; cbn [store];
    try reflexivity.
  - cbn [app List.length]. rewrite Nat.add_0_r, firstn_skipn. reflexivity.
  - rewrite IH. reflexivity.
Qed.

Lemma frame_refl (h : heap) : frame h h.
Proof. split; [lia | reflexivity]. Qed.

Lemma elements_frame (h0 h : heap) (s : slice_hdr) :
  frame h0 h -> readable h0 s -> elements h s = elements h0 s.
Proof.
  intros [_ Hf] [H0 | Hb]; unfold elements.
  - rewrite H0. reflexivity.
  - rewrite (Hf _ Hb). reflexivity.
Qed.

(** One [append]: the arrays that existed before the call keep their bytes,
    the result holds the former elements followed by the new ones, and it
    lies in an array allocated during the call. *)
Lemma append_mem_spec (grow : nat -> nat -> nat) (h0 h h' : heap)
    (bs bs' : slice_hdr) (src : list byte) :
  append_mem grow h bs src = (h', bs') ->
  frame h0 h -> owned h0 h bs ->
  frame h0 h' /\ owned h0 h' bs'
  /\ elements h' bs' = elements h bs ++ src.
Proof.
  unfold append_mem. intros H [Hlen Hf] Hown.
  destruct (Nat.leb_spec (hd_len bs + List.length src) (hd_cap bs)) as [Hfit | Hbig];
    injection H as <- <-.
  - destruct Hown as [[Hc Hl] | (Hb & Hs & Harr & Hl)].
    + assert (Hsrc : src = []) by (destruct src; [reflexivity | cbn in Hfit; lia]).
      subst src. rewrite store_nil.
      split; [split; assumption|]. split.
      * left. cbn [hd_cap hd_len]. split; [exact Hc | rewrite Hl; reflexivity].
      * unfold elements. cbn [hd_len hd_start hd_base]. rewrite Hl, app_nil_r.
        reflexivity.
    + split; [|split].
      * split; [rewrite store_length; exact Hlen|].
        intros a Ha. rewrite store_other by lia. apply Hf, Ha.
      * right. cbn [hd_base hd_start hd_len hd_cap]. rewrite store_length.
        split; [exact Hb|]. split; [exact Hs|].
        rewrite store_same by lia. split; [|exact Hfit].
        rewrite !length_app, length_firstn, length_skipn. lia.
      * unfold elements. cbn [hd_base hd_start hd_len].
        rewrite store_same by lia. rewrite Hs. cbn [Nat.add skipn].
        rewrite firstn_app, length_firstn.
        replace (Nat.min (hd_len bs) (List.length (nth (hd_base bs) h [])))
          with (hd_len bs) by lia.
        rewrite firstn_firstn.
        replace (Nat.min (hd_len bs + List.length src) (hd_len bs))
          with (hd_len bs) by lia.
        replace (hd_len bs + List.length src - hd_len bs)%nat
          with (List.length src) by lia.
        rewrite firstn_app, firstn_all, Nat.sub_diag. cbn [firstn].
        rewrite app_nil_r. reflexivity.
  - assert (Hel : List.length (elements h bs) = hd_len bs).
    { destruct Hown as [[Hc Hl] | (Hb & Hs & Harr & Hl)]; unfold elements.
      - rewrite Hl. reflexivity.
      - rewrite Hs. cbn [skipn]. rewrite length_firstn. lia. }
    split; [|split].
    + split; [rewrite length_app; lia|].
      intros a Ha. rewrite app_nth1 by lia. apply Hf, Ha.
    + right. cbn [hd_base hd_start hd_len hd_cap].
      rewrite length_app. cbn [List.length].
      split; [lia|]. split; [reflexivity|].
      rewrite nth_middle, !length_app, repeat_length, Hel.
      split; lia.
    + unfold elements at 1. cbn [hd_base hd_start hd_len].
      rewrite nth_middle. cbn [skipn].
      rewrite app_assoc, firstn_app, length_app, Hel, Nat.sub_diag.
      cbn [firstn]. rewrite app_nil_r.
      apply firstn_all2. rewrite length_app, Hel. lia.
Qed.

Ltac append_step :=
  match goal with
  | Hf : frame ?h0 ?h, Ho : owned ?h0 ?h ?bs
    |- context [append_mem ?g ?h ?bs ?src] =>
      let h' := fresh "h" in
      let bs' := fresh "bs" in
      let E := fresh "E" in
      let Hf' := fresh "Hf" in
      let Ho' := fresh "Ho" in
      let He' := fresh "He" in
      destruct (append_mem g h bs src) as [h' bs'] eqn:E;
      destruct (append_mem_spec g h0 h h' bs bs' src E Hf Ho)
        as (Hf' & Ho' & He');
      clear E Hf Ho
  end.

Lemma Marshal_mem_spec (grow : nat -> nat -> nat) (h h1 : heap)
    (cm local : ChallengeMsg) (payload bs1 : slice_hdr) (endian : byte) :
  elements h payload = Payload cm ->
  readable h payload ->
  Marshal_mem grow h cm payload endian = (h1, local, bs1) ->
  frame h h1
  /\ elements h1 payload = Payload cm
  /\ elements h1 bs1 = Marshal cm endian
  /\ readable h1 bs1
  /\ local = fst (Marshal_body cm endian).
Proof.
  intros Hrep Hread. unfold Marshal_mem, Marshal, Marshal_body.
  set (cm' := if Byte.eqb endian ">" then _ else cm).
  assert (Hf : frame h h) by apply frame_refl.
  assert (Ho : owned h h (mkhdr 0 0 0 0)) by (left; split; reflexivity).
  assert (He : elements h (mkhdr 0 0 0 0) = []) by reflexivity.
  do 11 append_step.
  match goal with
  | Hf : frame h ?hx |- _ =>
      rewrite (elements_frame h hx payload Hf Hread), Hrep
  end.
  append_step.
  intros [= <- <- <-]. cbn [fst snd].
  match goal with
  | Hf : frame h ?hx |- _ =>
      split; [exact Hf|]; split;
      [rewrite (elements_frame h hx payload Hf Hread); exact Hrep|]
  end.
  split.
  { rewrite He11, He10, He9, He8, He7, He6, He5, He4, He3, He2, He1, He0, He.
    replace (Payload cm') with (Payload cm)
      by (subst cm'; destruct (Byte.eqb endian ">"); reflexivity).
    reflexivity. }
  split; [|reflexivity].
  match goal with
  | Ho : owned h _ _ |- _ =>
      destruct Ho as [[_ Hl] | (Hb & _)]; [left; exact Hl | right; lia]
  end.
Qed.

(** C10.  [Marshal] run in memory, in either byte-order mode: every array
    that existed before the call keeps its bytes, so the payload of the
    caller's message, read through its header, is what it was; the receiver
    being a copy, the assignments of the big-endian mode reach no field of
    the caller's message; the bytes returned are those of [Marshal]; and a
    second call on the same message returns the same bytes, in a slice of
    its own that leaves the first result intact. *)
Theorem Marshal_mem_effect_free (grow : nat -> nat -> nat) (h h1 : heap)
    (cm local : ChallengeMsg) (payload bs1 : slice_hdr) (endian : byte) :
  elements h payload = Payload cm ->
  readable h payload ->
  Marshal_mem grow h cm payload endian = (h1, local, bs1) ->
  frame h h1
  /\ elements h1 payload = Payload cm
  /\ elements h1 bs1 = Marshal cm endian
  /\ forall h2 local2 bs2,
       Marshal_mem grow h1 cm payload endian = (h2, local2, bs2) ->
       elements h2 bs2 = elements h1 bs1
       /\ elements h2 bs1 = elements h1 bs1
       /\ elements h2 payload = Payload cm.
Proof.
  intros Hrep Hread H1.
  destruct (Marshal_mem_spec grow h h1 cm local payload bs1 endian
              Hrep Hread H1) as (Hf1 & Hp1 & Hb1 & Hr1 & _).
  split; [exact Hf1|]. split; [exact Hp1|]. split; [exact Hb1|].
  intros h2 local2 bs2 H2.
  assert (Hread1 : readable h1 payload).
  { destruct Hread as [H0 | Hb]; [left; exact H0 | right].
    destruct Hf1 as [Hl _]. lia. }
  destruct (Marshal_mem_spec grow h1 h2 cm local2 payload bs2 endian
              Hp1 Hread1 H2) as (Hf2 & Hp2 & Hb2 & _ & _).
  split; [rewrite Hb2, Hb1; reflexivity|].
  split; [apply (elements_frame h1 h2 bs1 Hf2 Hr1) | exact Hp2].
Qed.

Lemma Marshal_mem_effect_free_witness :
  let r := Marshal_mem sample_grow sample_heap msg_name_A sample_payload
             ">"%byte in
  frame sample_heap (fst (fst r))
  /\ elements (fst (fst r)) sample_payload = ["A"%byte]
  /\ elements (fst (fst r)) (snd r) = Marshal msg_name_A ">"%byte.
Proof.
  intros r.
  destruct (Marshal_mem_effect_free sample_grow sample_heap (fst (fst r))
              msg_name_A (snd (fst r)) sample_payload (snd r) ">"%byte)
    as (Hf & Hp & Hb & _).
  - reflexivity.
  - right. vm_compute. reflexivity.
  - vm_compute. reflexivity.
  - split; [exact Hf|]. split; [exact Hp | exact Hb].
Defined.

(** The copy that the body of the big-endian mode works on is changed. *)
Lemma Marshal_body_changes_its_copy :
  MessageType (fst (Marshal_body empty_msg ">"%byte)) = 33554432.
Proof.
  reflexivity.
Qed.

(** * Further properties *)

Ltac wf_compute :=
  constructor;
  first [ reflexivity | vm_compute; split; [discriminate | reflexivity] ].

(** ** The layout of the encoding *)

(** X1.  In either byte-order mode the encoding of a well-formed message
    is 48 bytes longer than its payload; the signature is at bytes 0 to 8,
    the server challenge at 24 to 32, the reserved bytes at 32 to 40, and
    the payload is everything from byte 48 on. *)
Theorem Marshal_layout (cm : ChallengeMsg) (endian : byte) :
  wf cm ->
  List.length (Marshal cm endian) = (48 + List.length (Payload cm))%nat
  /\ slice (Marshal cm endian) 0 8 = Ok (Signature cm)
  /\ slice (Marshal cm endian) 24 32 = Ok (ServerChallenge cm)
  /\ slice (Marshal cm endian) 32 40 = Ok (Reserved cm)
  /\ skipn 48 (Marshal cm endian) = Payload cm.
Proof.
  intros Hwf. split; [apply Marshal_length, Hwf|].
  destruct Hwf as [L1 L2 L3 _ _ _ _ _ _ _ _ _].
  destruct cm as [sig mt tnl tnm tno nf sc rs til tim tio pl off].
  fields. array8 sig L1. array8 sc L2. array8 rs L3.
  unfold Marshal, Marshal_body.
  destruct (Byte.eqb endian ">"); cbn [snd]; fields; unfold mem16, mem32;
    cbn [app slice Nat.leb andb List.length firstn skipn Nat.sub];
    repeat split.
Qed.

Lemma Marshal_layout_witness :
  List.length (Marshal msg_name_then_info ">"%byte) = 53%nat
  /\ skipn 48 (Marshal msg_name_then_info ">"%byte)
     = ["A"; x00; x00; x00; x00]%byte.
Proof.
  pose proof (Marshal_layout msg_name_then_info ">"%byte ltac:(wf_compute))
    as (Hl & _ & _ & _ & Hp).
  split; [exact Hl | exact Hp].
Defined.

(** ** Decoding an encoding, in general *)

Lemma Marshal_payload (m : ChallengeMsg) (endian : byte) :
  wf m -> skipn 48 (Marshal m endian) = Payload m.
Proof.
  intros [L1 L2 L3 _ _ _ _ _ _ _ _ _].
  destruct m as [sig mt tnl tnm tno nf sc rs til tim tio pl off].
  fields. array8 sig L1. array8 sc L2. array8 rs L3.
  unfold Marshal, Marshal_body.
  destruct (Byte.eqb endian ">"); reflexivity.
Qed.

Lemma UnMarshal_Marshal_gen (cm0 m : ChallengeMsg) :
  wf cm0 -> wf m ->
  UnMarshal cm0 (Marshal m "<"%byte)
  = if plen_of m <=? Z.of_nat (List.length (Payload m))
    then Ok (with_offset
               (with_Payload m
                  (firstn (Z.to_nat (plen_of m)) (Payload m)))
               ChallengeMsgPayloadOffset)
    else Fault IndexOutOfRange.
Proof.
  intros Hwf0 Hwf.
  assert (Hp : plen_of (header_of (Marshal m "<"%byte)) = plen_of m).
  { rewrite header_of_Marshal by exact Hwf. reflexivity. }
  pose proof (Marshal_length m "<"%byte Hwf) as Hl.
  destruct (Z.leb_spec (plen_of m) (Z.of_nat (List.length (Payload m))))
    as [Hle | Hlt].
  - destruct Hwf0 as [L1 L2 L3 _ _ _ _ _ _ _ _ _].
    rewrite (UnMarshal_decoded cm0 _ L1 L2 L3) by (rewrite Hp, Hl; lia).
    unfold decoded. rewrite Hp, Marshal_payload, header_of_Marshal
      by exact Hwf.
    destruct m; reflexivity.
  - apply UnMarshal_truncated. rewrite Hp, Hl. lia.
Qed.

Lemma Marshal_default_mode (m : ChallengeMsg) (endian : byte) :
  endian <> ">"%byte -> Marshal m endian = Marshal m "<"%byte.
Proof.
  intros H. rewrite (Marshal_little_endian m endian H).
  symmetry. apply Marshal_little_endian. discriminate.
Qed.

Lemma UnMarshal_Marshal_spare (cm0 m : ChallengeMsg) (sp : list byte) :
  wf cm0 -> wf m ->
  UnMarshal cm0 (Marshal m "<"%byte ++ sp)
  = if plen_of m <=? Z.of_nat (List.length (Payload m ++ sp))
    then Ok (with_offset
               (with_Payload m
                  (firstn (Z.to_nat (plen_of m)) (Payload m ++ sp)))
               ChallengeMsgPayloadOffset)
    else Fault IndexOutOfRange.
Proof.
  intros Hwf0 Hwf.
  pose proof (Marshal_length m "<"%byte Hwf) as Hl.
  assert (Hh : header_of (Marshal m "<"%byte ++ sp)
               = with_offset (with_Payload m []) ChallengeMsgPayloadOffset).
  { rewrite header_of_app by lia. apply header_of_Marshal, Hwf. }
  assert (Hp : plen_of (header_of (Marshal m "<"%byte ++ sp)) = plen_of m)
    by (rewrite Hh; reflexivity).
  assert (Hs : skipn 48 (Marshal m "<"%byte ++ sp) = Payload m ++ sp).
  { rewrite skipn_app, Marshal_payload by exact Hwf.
    replace (48 - List.length (Marshal m "<"%byte))%nat with 0%nat by lia.
    reflexivity. }
  rewrite length_app.
  destruct (Z.leb_spec (plen_of m)
              (Z.of_nat (List.length (Payload m) + List.length sp)))
    as [Hle | Hlt].
  - destruct Hwf0 as [L1 L2 L3 _ _ _ _ _ _ _ _ _].
    rewrite (UnMarshal_decoded cm0 _ L1 L2 L3)
      by (rewrite Hp, length_app, Hl; lia).
    unfold decoded. rewrite Hp, Hs, Hh. destruct m; reflexivity.
  - apply UnMarshal_truncated. rewrite Hp, length_app, Hl. lia.
Qed.

(** X2.  Every mode byte other than ['>'] gives the little-endian encoding.
    Decoding it, whatever spare capacity [sp] the encoding carries, faults
    exactly when payload and spare capacity together are shorter than the
    length the header announces; otherwise it yields the message with its
    cursor at 48 and, as payload, the announced number of bytes taken from
    the payload followed by the spare capacity; these are bytes of the
    payload alone when the payload is long enough. *)
Theorem UnMarshal_Marshal_any_payload (cm0 m : ChallengeMsg)
    (endian : byte) (sp : list byte) :
  wf cm0 -> wf m -> endian <> ">"%byte ->
  (Z.of_nat (List.length (Payload m)) + Z.of_nat (List.length sp) < plen_of m ->
   UnMarshal_in cm0 (mkslice (Marshal m endian) sp) = Fault IndexOutOfRange)
  /\
  (plen_of m <= Z.of_nat (List.length (Payload m)) + Z.of_nat (List.length sp) ->
   UnMarshal_in cm0 (mkslice (Marshal m endian) sp)
   = Ok (with_offset
           (with_Payload m (firstn (Z.to_nat (plen_of m)) (Payload m ++ sp)))
           ChallengeMsgPayloadOffset))
  /\
  (plen_of m <= Z.of_nat (List.length (Payload m)) ->
   UnMarshal_in cm0 (mkslice (Marshal m endian) sp)
   = Ok (with_offset
           (with_Payload m (firstn (Z.to_nat (plen_of m)) (Payload m)))
           ChallengeMsgPayloadOffset)).
Proof.
  intros Hwf0 Hwf He.
  rewrite UnMarshal_in_backing. unfold backing. cbn [elems spare].
  rewrite (Marshal_default_mode m endian He),
    (UnMarshal_Marshal_spare cm0 m sp Hwf0 Hwf), length_app.
  split; [|split]; intros H.
  - destruct (Z.leb_spec (plen_of m)
                (Z.of_nat (List.length (Payload m) + List.length sp)));
      [lia | reflexivity].
  - destruct (Z.leb_spec (plen_of m)
                (Z.of_nat (List.length (Payload m) + List.length sp)));
      [reflexivity | lia].
  - destruct (Z.leb_spec (plen_of m)
                (Z.of_nat (List.length (Payload m) + List.length sp)));
      [|lia].
    rewrite firstn_app.
    replace (Z.to_nat (plen_of m) - List.length (Payload m))%nat
      with 0%nat by lia.
    cbn [firstn]. rewrite app_nil_r. reflexivity.
Qed.

Lemma UnMarshal_Marshal_any_payload_witness :
  UnMarshal_in ChallengeMsg_zero
    (mkslice
       (Marshal (with_NegotiateFlags msg_name_A NEGOTIATE_VERSION) "<"%byte)
       [x00; x00; x00])
  = Fault IndexOutOfRange
  /\ UnMarshal_in ChallengeMsg_zero
       (mkslice
          (Marshal (with_NegotiateFlags msg_name_A NEGOTIATE_VERSION) x00)
          (repeat x00 15))
     = Ok (with_offset
             (with_Payload (with_NegotiateFlags msg_name_A NEGOTIATE_VERSION)
                ("A"%byte :: repeat x00 8)) 48)
  /\ UnMarshal_in ChallengeMsg_zero
       (mkslice (Marshal (with_Payload msg_name_A ["A"; "B"; "C"]%byte) x00)
          [x07])
     = Ok (with_offset msg_name_A 48).
Proof.
  assert (Hz : wf ChallengeMsg_zero) by wf_compute.
  split; [|split].
  - apply (proj1 (UnMarshal_Marshal_any_payload ChallengeMsg_zero
                    (with_NegotiateFlags msg_name_A NEGOTIATE_VERSION)
                    "<"%byte [x00; x00; x00] Hz
                    ltac:(wf_compute) ltac:(discriminate))).
    vm_compute. reflexivity.
  - apply (proj1 (proj2 (UnMarshal_Marshal_any_payload ChallengeMsg_zero
                    (with_NegotiateFlags msg_name_A NEGOTIATE_VERSION)
                    x00 (repeat x00 15) Hz
                    ltac:(wf_compute) ltac:(discriminate)))).
    vm_compute. discriminate.
  - apply (proj2 (proj2 (UnMarshal_Marshal_any_payload ChallengeMsg_zero
                    (with_Payload msg_name_A ["A"; "B"; "C"]%byte)
                    x00 [x07] Hz
                    ltac:(wf_compute) ltac:(discriminate)))).
    vm_compute. discriminate.
Defined.

(** ** What [UnMarshal] reads *)

(** X3.  [UnMarshal] overwrites every field of its receiver and reads the
    header and the announced payload only: when the length of the input
    covers both, the decode succeeds and yields the same message whatever
    the message decoded into, whatever the spare capacity of the input
    holds, and whatever bytes follow. *)
Theorem UnMarshal_reads_header_and_payload (cm0 cm1 : ChallengeMsg)
    (bs : list byte) :
  wf cm0 -> wf cm1 ->
  48 + plen_of (header_of bs) <= Z.of_nat (List.length bs) ->
  forall sp extra sp',
    UnMarshal_in cm0 (mkslice bs sp) = Ok (decoded bs)
    /\ UnMarshal_in cm1 (mkslice (bs ++ extra) sp') = Ok (decoded bs).
Proof.
  intros Hwf0 Hwf1 Hle sp extra sp'.
  pose proof Hwf0 as [L1 L2 L3 _ _ _ _ _ _ _ _ _].
  pose proof Hwf1 as [K1 K2 K3 _ _ _ _ _ _ _ _ _].
  pose proof (plen_of_header_range bs) as Hp.
  rewrite !UnMarshal_in_backing. unfold backing. cbn [elems spare].
  split.
  - rewrite <- (decoded_app bs sp Hle).
    apply UnMarshal_decoded; try assumption.
    rewrite header_of_app, length_app by lia. lia.
  - rewrite <- app_assoc. rewrite <- (decoded_app bs (extra ++ sp') Hle).
    apply UnMarshal_decoded; try assumption.
    rewrite header_of_app, length_app by lia. lia.
Qed.

Lemma UnMarshal_reads_header_and_payload_witness :
  UnMarshal_in msg_name_then_info
    (mkslice (buffer_name_A ++ ["x"; "y"]%byte) [x07; x08])
  = Ok (decoded buffer_name_A).
Proof.
  apply (UnMarshal_reads_header_and_payload ChallengeMsg_zero
           msg_name_then_info buffer_name_A
           ltac:(wf_compute) ltac:(wf_compute)
           ltac:(vm_compute; discriminate) [] ["x"; "y"]%byte [x07; x08]).
Defined.

(** X4.  On a decoded message [Version] never faults: it returns bytes 48
    to 56 of the input when the version flag is set, and nothing
    otherwise. *)
Theorem Version_after_UnMarshal (cm0 m : ChallengeMsg) (bs : list byte) :
  wf cm0 -> UnMarshal cm0 bs = Ok m ->
  Version m
  = Ok (if negb (Z.land (NegotiateFlags m) NEGOTIATE_VERSION =? 0)
        then Some (firstn 8 (skipn 48 bs)) else None).
Proof.
  intros Hwf H. apply UnMarshal_Ok_inv in H as [-> Hle]; [|exact Hwf].
  unfold Version.
  destruct (negb (Z.land (NegotiateFlags (decoded bs)) NEGOTIATE_VERSION
                  =? 0)) eqn:E; [|reflexivity].
  assert (Hp : 8 <= plen_of (header_of bs)).
  { unfold plen_of.
    change (NegotiateFlags (header_of bs)) with (NegotiateFlags (decoded bs)).
    rewrite E.
    pose proof (uint16_range
                  (bytes2Uint (firstn 2 (skipn 12 bs)) "<"%byte)).
    pose proof (uint16_range
                  (bytes2Uint (firstn 2 (skipn 40 bs)) "<"%byte)).
    unfold header_of. fields.
    repeat match goal with
           | |- context [if ?c then _ else _] => destruct c
           end; lia. }
  unfold decoded. fields.
  rewrite slice_ok by (rewrite ?length_firstn, ?length_skipn; lia).
  fields. cbn [skipn Nat.sub].
  rewrite firstn_firstn.
  replace (Nat.min 8 (Z.to_nat (plen_of (header_of bs)))) with 8%nat by lia.
  reflexivity.
Qed.

Lemma Version_after_UnMarshal_witness :
  Version (decoded buffer_version)
  = Ok (Some [x06; x01; xb1; x1d; x00; x00; x00; x0f]).
Proof.
  rewrite (Version_after_UnMarshal ChallengeMsg_zero
             (decoded buffer_version) buffer_version).
  - vm_compute. reflexivity.
  - wf_compute.
  - vm_compute. reflexivity.
Defined.

(** ** The cursor and the setters *)

(** X5.  The cursor stands at the end of the payload on the empty message
    and after [Reset]; [SetTargetName] and [SetTargetInfo] keep it there as
    long as they append fewer than 65536 bytes and the payload stays below
    the 32-bit limit; [SetServerChallenge] does not move it. *)
Theorem cursor_at_end_kept (avIdsRev : string -> byte) (rnd : list byte) :
  cursor_at_end empty_msg
  /\ (forall cm, cursor_at_end (Reset cm))
  /\ (forall cm b cm',
        cursor_at_end cm -> SetTargetName cm b = Ok cm' ->
        Z.of_nat (List.length (Payload cm')) < 4294967248 ->
        Z.of_nat (List.length (Payload cm'))
        - Z.of_nat (List.length (Payload cm)) < 65536 ->
        cursor_at_end cm')
  /\ (forall cm t cm',
        cursor_at_end cm -> SetTargetInfo avIdsRev cm t = Ok cm' ->
        Z.of_nat (List.length (Payload cm')) < 4294967248 ->
        Z.of_nat (List.length (Payload cm'))
        - Z.of_nat (List.length (Payload cm)) < 65536 ->
        cursor_at_end cm')
  /\ (forall cm c cm',
        cursor_at_end cm -> SetServerChallenge rnd cm c = Ok cm' ->
        cursor_at_end cm').
Proof.
  unfold cursor_at_end, ChallengeMsgPayloadOffset.
  split; [reflexivity|]. split; [reflexivity|]. split; [|split].
  - intros cm b cm' Hc H Hmax Hgrow. name_set H.
    rewrite length_app in *. rewrite uint16_small by lia.
    rewrite (uint32_small (Z.of_nat _)) by lia.
    rewrite uint32_small by lia. lia.
  - intros cm t cm' Hc H Hmax Hgrow. info_set H.
    rewrite !length_app in *. cbn [List.length] in *.
    rewrite uint16_small by lia.
    rewrite (uint32_small (Z.of_nat _)) by lia.
    rewrite uint32_small by lia. lia.
  - intros cm [c|] cm' Hc H; cbn [SetServerChallenge] in H;
      injection H as <-; exact Hc.
Qed.

Lemma cursor_at_end_kept_witness :
  cursor_at_end msg_name_A /\ cursor_at_end msg_name_then_info.
Proof.
  pose proof (cursor_at_end_kept avIdsRev_table (make 8))
    as (He & _ & Hn & Hi & _).
  assert (H1 : cursor_at_end msg_name_A).
  { apply (Hn empty_msg ["A"%byte] msg_name_A He); [reflexivity | |];
      vm_compute; reflexivity. }
  split; [exact H1|].
  apply (Hi msg_name_A [] msg_name_then_info H1); [reflexivity | |];
    vm_compute; reflexivity.
Defined.

(** X6.  When the unicode flag is clear, the target name is not yet set and
    the input has at most 65535 bytes, [SetTargetName] appends the input
    verbatim, records its length as length and maximal length and the former
    cursor as offset, advances the cursor by that length, and leaves the
    flags and the target-info triple alone. *)
Theorem SetTargetName_verbatim (cm : ChallengeMsg) (b : list byte) :
  Z.land (NegotiateFlags cm) NEGOTIATE_UNICODE_CHARSET = 0 ->
  TargetNameLen cm = 0 ->
  Z.of_nat (List.length b) <= 65535 ->
  exists cm',
    SetTargetName cm b = Ok cm'
    /\ TargetNameLen cm' = Z.of_nat (List.length b)
    /\ TargetNameMaxLen cm' = Z.of_nat (List.length b)
    /\ TargetNameBufferOffset cm' = offset cm
    /\ Payload cm' = Payload cm ++ b
    /\ offset cm' = uint32 (offset cm + Z.of_nat (List.length b))
    /\ NegotiateFlags cm' = NegotiateFlags cm
    /\ TargetInfoLen cm' = TargetInfoLen cm
    /\ TargetInfoBufferOffset cm' = TargetInfoBufferOffset cm.
Proof.
  intros Hu H0 Hlen.
  rewrite (SetTargetName_Ok cm b H0). eexists. split; [reflexivity|].
  fields. unfold name_bytes. rewrite Hu. cbn [Z.eqb negb].
  rewrite uint16_small by lia. rewrite (uint32_small (Z.of_nat _)) by lia.
  repeat split.
Qed.

Lemma SetTargetName_verbatim_witness :
  exists cm',
    SetTargetName empty_msg (list_byte_of_string "SRV") = Ok cm'
    /\ TargetNameLen cm' = 3 /\ Payload cm' = ["S"; "R"; "V"]%byte.
Proof.
  destruct (SetTargetName_verbatim empty_msg (list_byte_of_string "SRV"))
    as (cm' & H & Hl & _ & _ & Hp & _).
  - reflexivity.
  - reflexivity.
  - vm_compute. discriminate.
  - exists cm'. split; [exact H|]. split; [exact Hl | exact Hp].
Defined.

(** ** Reading back what a setter wrote *)

Lemma slice_app_end (pre mid : list byte) (lo hi : nat) :
  lo = List.length pre -> hi = (List.length pre + List.length mid)%nat ->
  slice (pre ++ mid) lo hi = Ok mid.
Proof.
  intros -> ->. rewrite slice_ok by (rewrite ?length_app; lia).
  rewrite skipn_app, skipn_all, Nat.sub_diag. cbn [skipn app].
  replace (List.length pre + List.length mid - List.length pre)%nat
    with (List.length mid) by lia.
  rewrite firstn_all. reflexivity.
Qed.

Lemma slice_app_middle (pre mid post : list byte) :
  slice (pre ++ mid ++ post) (List.length pre)
    (List.length pre + List.length mid)
  = Ok mid.
Proof.
  rewrite slice_ok by (rewrite ?length_app; lia).
  rewrite skipn_app, skipn_all, Nat.sub_diag. cbn [skipn app].
  replace (List.length pre + List.length mid - List.length pre)%nat
    with (List.length mid) by lia.
  rewrite firstn_app, firstn_all, Nat.sub_diag. cbn [firstn].
  rewrite app_nil_r. reflexivity.
Qed.

Lemma length_AVPairs_encoding_pos (avIdsRev : string -> byte)
    (t : list (string * value)) :
  4 <= Z.of_nat (List.length (AVPairs_encoding avIdsRev t)).
Proof.
  unfold AVPairs_encoding. rewrite length_app. cbn [List.length]. lia.
Qed.

(** X7.  On a message whose cursor stands at the end of its payload,
    [TargetInfo] returns exactly the bytes that [SetTargetInfo] has just
    encoded, whatever the payload held before. *)
Theorem TargetInfo_after_SetTargetInfo (avIdsRev : string -> byte)
    (cm : ChallengeMsg) (t : list (string * value)) :
  cursor_at_end cm ->
  TargetInfoLen cm = 0 ->
  well_typed avIdsRev t ->
  Z.of_nat (List.length (AVPairs_encoding avIdsRev t)) <= 65535 ->
  Z.of_nat (List.length (Payload cm)) < 4294901712 ->
  exists cm',
    SetTargetInfo avIdsRev cm t = Ok cm'
    /\ TargetInfoLen cm'
       = Z.of_nat (List.length (AVPairs_encoding avIdsRev t))
    /\ TargetInfo cm' = Ok (Some (AVPairs_encoding avIdsRev t)).
Proof.
  intros Hc H0 Hwt Hlen Hmax.
  pose proof (length_AVPairs_encoding_pos avIdsRev t) as Hpos.
  unfold SetTargetInfo. rewrite H0. cbn [Z.eqb negb].
  rewrite (avpair_loop_encoding avIdsRev t Hwt []). cbn [bind app].
  change (flat_map _ t ++ [x00; x00; x00; x00])
    with (AVPairs_encoding avIdsRev t).
  set (enc := AVPairs_encoding avIdsRev t) in *.
  eexists. split; [reflexivity|]. unfold TargetInfo. fields.
  rewrite uint16_small by lia. split; [reflexivity|].
  destruct (Z.eqb_spec (Z.of_nat (List.length enc)) 0) as [E|_]; [lia|].
  unfold cursor_at_end, ChallengeMsgPayloadOffset in *. rewrite Hc.
  replace (48 + Z.of_nat (List.length (Payload cm)) - 48)
    with (Z.of_nat (List.length (Payload cm))) by lia.
  rewrite (uint32_small (Z.of_nat (List.length (Payload cm)))) by lia.
  rewrite (uint32_small (Z.of_nat (List.length enc))) by lia.
  rewrite uint32_small by lia.
  rewrite (slice_app_end (Payload cm) enc) by lia. reflexivity.
Qed.

Lemma TargetInfo_after_SetTargetInfo_witness :
  exists cm',
    SetTargetInfo avIdsRev_table msg_name_A sample_tinfo = Ok cm'
    /\ TargetInfo cm' = Ok (Some (AVPairs_encoding avIdsRev_table sample_tinfo)).
Proof.
  destruct (TargetInfo_after_SetTargetInfo avIdsRev_table msg_name_A
              sample_tinfo) as (cm' & H & _ & Hr).
  - reflexivity.
  - reflexivity.
  - unfold well_typed, sample_tinfo.
    repeat (apply Forall_cons;
            [first [left; reflexivity | right; reflexivity]|]).
    apply Forall_nil.
  - vm_compute. discriminate.
  - vm_compute. reflexivity.
  - exists cm'. split; assumption.
Defined.

(** X8.  On a message whose cursor stands at the end of its payload,
    [TargetName] after [SetTargetName] on a non-empty name returns the name
    itself when the unicode flag is clear, and the helper
    [bytes2StringUTF16] applied to the UTF-16LE bytes when it is set. *)
Theorem TargetName_after_SetTargetName
    (bytes2StringUTF16 : list byte -> string) (cm : ChallengeMsg)
    (b : list byte) :
  cursor_at_end cm ->
  TargetNameLen cm = 0 ->
  b <> [] ->
  Z.of_nat (List.length (name_bytes cm b)) <= 65535 ->
  Z.of_nat (List.length (Payload cm)) < 4294901712 ->
  exists cm',
    SetTargetName cm b = Ok cm'
    /\ TargetName bytes2StringUTF16 cm'
       = Ok (if Z.land (NegotiateFlags cm) NEGOTIATE_UNICODE_CHARSET =? 0
             then string_of_list_byte b
             else bytes2StringUTF16 (encodeUTF16LE b)).
Proof.
  intros Hc H0 Hb Hlen Hmax.
  rewrite (SetTargetName_Ok cm b H0). eexists. split; [reflexivity|].
  assert (Hpos : 0 < Z.of_nat (List.length (name_bytes cm b))).
  { unfold name_bytes.
    destruct (negb _); rewrite ?length_encodeUTF16LE;
      destruct b; [contradiction | cbn [List.length]; lia
                  | contradiction | cbn [List.length]; lia]. }
  unfold TargetName. fields. rewrite uint16_small by lia.
  destruct (Z.eqb_spec (Z.of_nat (List.length (name_bytes cm b))) 0)
    as [E|_]; [lia|].
  unfold cursor_at_end, ChallengeMsgPayloadOffset in *. rewrite Hc.
  replace (48 + Z.of_nat (List.length (Payload cm)) - 48)
    with (Z.of_nat (List.length (Payload cm))) by lia.
  rewrite (uint32_small (Z.of_nat (List.length (Payload cm)))) by lia.
  rewrite (uint32_small (Z.of_nat (List.length (name_bytes cm b)))) by lia.
  rewrite uint32_small by lia.
  rewrite (slice_app_end (Payload cm) (name_bytes cm b)) by lia. fields.
  unfold name_bytes, NEGOTIATE_UNICODE_CHARSET.
  assert (Hbit : Z.land (NegotiateFlags cm) 1 = 0
                 \/ Z.land (NegotiateFlags cm) 1 = 1).
  { assert (Hl : Z.land (NegotiateFlags cm) 1 = NegotiateFlags cm mod 2)
      by exact (Z.land_ones (NegotiateFlags cm) 1 ltac:(lia)).
    pose proof (Z.mod_pos_bound (NegotiateFlags cm) 2 ltac:(lia)). lia. }
  destruct Hbit as [-> | ->]; reflexivity.
Qed.

Lemma TargetName_after_SetTargetName_witness :
  exists cm',
    SetTargetName msg_info_empty (list_byte_of_string "SRV") = Ok cm'
    /\ TargetName (fun _ => EmptyString) cm' = Ok "SRV"%string.
Proof.
  destruct (TargetName_after_SetTargetName (fun _ => EmptyString)
              msg_info_empty (list_byte_of_string "SRV"))
    as (cm' & H & Hr).
  - reflexivity.
  - reflexivity.
  - discriminate.
  - vm_compute. discriminate.
  - vm_compute. reflexivity.
  - exists cm'. split; [exact H | exact Hr].
Defined.

(** ** What [SetTargetInfo] writes, and when it faults *)

Lemma avpair_loop_unknown (avIdsRev : string -> byte)
    (t : list (string * value)) :
  Forall (fun kv => avIdsRev (fst kv) = x00) t ->
  forall acc, avpair_loop avIdsRev acc t = Ok acc.
Proof.
  induction 1 as [|[k v] rest Hk _ IH]; intros acc; cbn [avpair_loop].
  - reflexivity.
  - cbn [fst] in Hk. unfold avpair_step. rewrite Hk.
    change (Byte.eqb x00 x00) with true. cbn [bind]. apply IH.
Qed.

(** X9.  A successful [SetTargetInfo] sets bit 23 of the negotiate flags
    and changes no other bit; the bytes it appends end with the four zero
    bytes of the terminator; and when no key of the mapping is a known
    attribute, whatever the values, the terminator is all it appends and
    the recorded length is 4. *)
Theorem SetTargetInfo_flag_and_terminator (avIdsRev : string -> byte)
    (cm cm' : ChallengeMsg) (t : list (string * value)) :
  SetTargetInfo avIdsRev cm t = Ok cm' ->
  (forall n, 0 <= n ->
     Z.testbit (NegotiateFlags cm') n
     = (Z.testbit (NegotiateFlags cm) n || (n =? 23))%bool)
  /\ (exists bs, Payload cm' = Payload cm ++ bs ++ [x00; x00; x00; x00])
  /\ (Forall (fun kv => avIdsRev (fst kv) = x00) t ->
      Payload cm' = Payload cm ++ [x00; x00; x00; x00]
      /\ TargetInfoLen cm' = 4).
Proof.
  intros H. info_set H. split; [|split].
  - intros n Hn. rewrite Z.lor_spec. f_equal.
    change NEGOTIATE_TARGET_INFO with (2 ^ 23).
    rewrite Z.pow2_bits_eqb by lia. apply Z.eqb_sym.
  - exists bs. reflexivity.
  - intros Hall.
    rewrite (avpair_loop_unknown avIdsRev t Hall) in L.
    injection L as <-. split; reflexivity.
Qed.

Lemma SetTargetInfo_flag_and_terminator_witness :
  Z.testbit (NegotiateFlags msg_info_empty) 23 = true
  /\ Payload msg_info_empty = [x00; x00; x00; x00]
  /\ TargetInfoLen msg_info_empty = 4.
Proof.
  pose proof (SetTargetInfo_flag_and_terminator avIdsRev_table empty_msg
                msg_info_empty [("NoSuchAttribute"%string, VOther)]
                eq_refl) as (Hf & _ & Hu).
  split.
  - rewrite (Hf 23) by (vm_compute; discriminate). reflexivity.
  - apply Hu. repeat constructor.
Defined.

Lemma avpair_step_fault (avIdsRev : string -> byte) (acc : list byte)
    (kv : string * value) :
  avIdsRev (fst kv) <> x00 ->
  value_fits (avIdsRev (fst kv)) (snd kv) = false ->
  avpair_step avIdsRev acc kv = Fault TypeAssertion.
Proof.
  destruct kv as [k v]. cbn [fst snd]. intros Hk Hv. unfold avpair_step.
  destruct (Byte.eqb (avIdsRev k) x00) eqn:E0.
  { apply Byte.byte_dec_bl in E0. contradiction. }
  replace (negb (Byte.eqb (avIdsRev k) x06)
           && negb (Byte.eqb (avIdsRev k) x07)
           && negb (Byte.eqb (avIdsRev k) x08)
           && negb (Byte.eqb (avIdsRev k) x0a))%bool
    with (negb (is_raw (avIdsRev k)))
    by (unfold is_raw; rewrite !negb_orb; reflexivity).
  destruct v as [s | b |]; cbn [value_fits] in Hv.
  - apply negb_false_iff in Hv. rewrite Hv. reflexivity.
  - rewrite Hv. reflexivity.
  - destruct (negb (is_raw (avIdsRev k))); reflexivity.
Qed.

Lemma entry_fits_dec (avIdsRev : string -> byte) (kv : string * value) :
  {avIdsRev (fst kv) = x00
   \/ value_fits (avIdsRev (fst kv)) (snd kv) = true}
  + {avIdsRev (fst kv) <> x00
     /\ value_fits (avIdsRev (fst kv)) (snd kv) = false}.
Proof.
  destruct (Byte.byte_eq_dec (avIdsRev (fst kv)) x00) as [E|E].
  - left. left. exact E.
  - destruct (value_fits (avIdsRev (fst kv)) (snd kv)) eqn:V.
    + left. right. reflexivity.
    + right. split; [exact E | reflexivity].
Qed.

Lemma avpair_loop_fault (avIdsRev : string -> byte)
    (t : list (string * value)) :
  ~ well_typed avIdsRev t ->
  forall acc, avpair_loop avIdsRev acc t = Fault TypeAssertion.
Proof.
  induction t as [|kv rest IH]; intros Hn acc.
  - exfalso. apply Hn. constructor.
  - cbn [avpair_loop].
    destruct (entry_fits_dec avIdsRev kv) as [Hfit | [Hk Hv]].
    + rewrite (avpair_step_encoding avIdsRev acc kv Hfit). cbn [bind].
      apply IH. intros Hrest. apply Hn. constructor; assumption.
    + rewrite (avpair_step_fault avIdsRev acc kv Hk Hv). reflexivity.
Qed.

Lemma well_typed_dec (avIdsRev : string -> byte)
    (t : list (string * value)) :
  {well_typed avIdsRev t} + {~ well_typed avIdsRev t}.
Proof.
  unfold well_typed. apply Forall_dec. intros kv.
  destruct (entry_fits_dec avIdsRev kv) as [H | [Hk Hv]].
  - left. exact H.
  - right. intros [H | H]; [contradiction | congruence].
Qed.

(** X10.  The three outcomes of [SetTargetInfo]: it panics with its message
    exactly when a target-info length is already recorded; otherwise it
    faults on a type assertion exactly when some entry with a known key
    carries a value of the wrong dynamic type; otherwise it succeeds. *)
Theorem SetTargetInfo_faults (avIdsRev : string -> byte)
    (cm : ChallengeMsg) (t : list (string * value)) :
  (TargetInfoLen cm <> 0 <->
   SetTargetInfo avIdsRev cm t
   = Fault (PanicMsg "Can't set TargetInfo field repeatedly"))
  /\ (TargetInfoLen cm = 0 /\ ~ well_typed avIdsRev t <->
      SetTargetInfo avIdsRev cm t = Fault TypeAssertion)
  /\ (TargetInfoLen cm = 0 /\ well_typed avIdsRev t <->
      exists cm', SetTargetInfo avIdsRev cm t = Ok cm').
Proof.
  unfold SetTargetInfo.
  destruct (Z.eqb_spec (TargetInfoLen cm) 0) as [E|E]; cbn [negb].
  - destruct (well_typed_dec avIdsRev t) as [Hwt | Hwt].
    + rewrite (avpair_loop_encoding avIdsRev t Hwt []). cbn [bind].
      split; [|split]; split.
      * intros H. contradiction.
      * discriminate.
      * intros [_ Hn]. contradiction.
      * discriminate.
      * intros _. eexists. reflexivity.
      * intros _. split; assumption.
    + rewrite (avpair_loop_fault avIdsRev t Hwt []). cbn [bind].
      split; [|split]; split.
      * intros H. contradiction.
      * discriminate.
      * reflexivity.
      * intros _. split; assumption.
      * intros [_ H]. contradiction.
      * intros [cm' H]. discriminate H.
  - split; [|split]; split.
    + reflexivity.
    + intros _. exact E.
    + intros [H _]. contradiction.
    + discriminate.
    + intros [H _]. contradiction.
    + intros [cm' H]. discriminate H.
Qed.

Lemma SetTargetInfo_faults_witness :
  SetTargetInfo avIdsRev_table msg_info_empty sample_tinfo
  = Fault (PanicMsg "Can't set TargetInfo field repeatedly")
  /\ SetTargetInfo avIdsRev_table empty_msg
       [("MsvAvFlags"%string, VOther)] = Fault TypeAssertion
  /\ exists cm', SetTargetInfo avIdsRev_table empty_msg sample_tinfo = Ok cm'.
Proof.
  split; [|split].
  - apply (proj1 (SetTargetInfo_faults avIdsRev_table msg_info_empty
                    sample_tinfo)).
    vm_compute. discriminate.
  - apply (proj1 (proj2 (SetTargetInfo_faults avIdsRev_table empty_msg
                           [("MsvAvFlags"%string, VOther)]))).
    split; [reflexivity|].
    intros H. inversion H as [|kv rest [Hk | Hv] _]; discriminate.
  - apply (proj2 (proj2 (SetTargetInfo_faults avIdsRev_table empty_msg
                           sample_tinfo))).
    split; [reflexivity|].
    unfold well_typed, sample_tinfo.
    repeat (apply Forall_cons;
            [first [left; reflexivity | right; reflexivity]|]).
    apply Forall_nil.
Defined.

(** X11.  The order in which the [range] statement visits the mapping
    changes neither the outcome of [SetTargetInfo] nor, on success, any
    field other than the payload, nor the length of the payload: lengths,
    offsets, flags and cursor are the same for every order. *)
Theorem SetTargetInfo_iteration_order (avIdsRev : string -> byte)
    (cm : ChallengeMsg) (t t' : list (string * value)) :
  Permutation t t' ->
  (forall f, SetTargetInfo avIdsRev cm t = Fault f ->
             SetTargetInfo avIdsRev cm t' = Fault f)
  /\ (forall cm1,
        SetTargetInfo avIdsRev cm t = Ok cm1 ->
        exists cm2,
          SetTargetInfo avIdsRev cm t' = Ok cm2
          /\ with_Payload cm2 [] = with_Payload cm1 []
          /\ List.length (Payload cm2) = List.length (Payload cm1)).
Proof.
  intros Hperm. unfold SetTargetInfo.
  destruct (Z.eqb_spec (TargetInfoLen cm) 0) as [E|E]; cbn [negb].
  2:{ split; [intros f H; exact H | intros cm1 H; discriminate H]. }
  destruct (well_typed_dec avIdsRev t) as [Hwt | Hwt].
  - assert (Hwt' : well_typed avIdsRev t')
      by (unfold well_typed in *; rewrite <- Hperm; exact Hwt).
    rewrite (avpair_loop_encoding avIdsRev t Hwt []),
      (avpair_loop_encoding avIdsRev t' Hwt' []). cbn [bind app].
    split; [intros f H; discriminate H|].
    intros cm1 [= <-]. eexists. split; [reflexivity|]. fields.
    assert (Hlen : List.length
                     (flat_map
                        (fun kv =>
                           if Byte.eqb (avIdsRev (fst kv)) x00 then []
                           else avpair_encoding (avIdsRev (fst kv)) (snd kv))
                        t')
                   = List.length
                       (flat_map
                          (fun kv =>
                             if Byte.eqb (avIdsRev (fst kv)) x00 then []
                             else avpair_encoding (avIdsRev (fst kv))
                                    (snd kv))
                          t)).
    { apply Permutation_length, Permutation_flat_map, Permutation_sym, Hperm. }
    rewrite !length_app, Hlen. split; reflexivity.
  - assert (Hwt' : ~ well_typed avIdsRev t')
      by (intros H; apply Hwt; unfold well_typed in *;
          rewrite Hperm; exact H).
    rewrite (avpair_loop_fault avIdsRev t Hwt []),
      (avpair_loop_fault avIdsRev t' Hwt' []). cbn [bind].
    split; [intros f H; exact H | intros cm1 H; discriminate H].
Qed.

Lemma SetTargetInfo_iteration_order_witness :
  exists cm2,
    SetTargetInfo avIdsRev_table empty_msg (rev sample_tinfo) = Ok cm2
    /\ TargetInfoLen cm2 = 24 /\ offset cm2 = 72.
Proof.
  destruct (proj2 (SetTargetInfo_iteration_order avIdsRev_table empty_msg
                     sample_tinfo (rev sample_tinfo)
                     (Permutation_rev sample_tinfo))
              (mkChallengeMsg
                 ["N"; "T"; "L"; "M"; "S"; "S"; "P"; x00]%byte 2
                 0 0 0 8388608 (make 8) (make 8) 24 24 48
                 [x01; x00; x04; x00; "A"; x00; "B"; x00;
                  x07; x00; x08; x00; x01; x02; x03; x04; x05; x06; x07; x08;
                  x00; x00; x00; x00]%byte 72)
              eq_refl) as (cm2 & H & Heq & _).
  exists cm2. split; [exact H|].
  split.
  - change (TargetInfoLen cm2) with (TargetInfoLen (with_Payload cm2 [])).
    rewrite Heq. reflexivity.
  - change (offset cm2) with (offset (with_Payload cm2 [])).
    rewrite Heq. reflexivity.
Defined.

(** ** Reset *)

Lemma slice_nil_fault (lo len : Z) :
  0 < len < 65536 ->
  slice [] (Z.to_nat (uint32 lo))
    (Z.to_nat (uint32 (uint32 lo + uint32 len)))
  = Fault IndexOutOfRange.
Proof.
  intros Hlen. unfold slice.
  destruct (Nat.leb _ _ && Nat.leb _ _)%bool eqn:E; [|reflexivity].
  exfalso. apply andb_true_iff in E as [E1 E2].
  apply Nat.leb_le in E1. apply Nat.leb_le in E2. cbn [List.length] in E2.
  pose proof (uint32_range lo) as Hlo.
  pose proof (uint32_range (uint32 lo + uint32 len)) as Hhi.
  assert (H0 : uint32 lo = 0) by lia.
  rewrite H0, (uint32_small len), (uint32_small (0 + len)) in * by lia.
  lia.
Qed.



(** ** SetServerChallenge *)

Lemma Marshal_challenge_frame (cm : ChallengeMsg) (sc' : list byte)
    (endian : byte) :
  wf cm -> List.length sc' = 8%nat ->
  slice (Marshal (with_ServerChallenge cm sc') endian) 24 32 = Ok sc'
  /\ firstn 24 (Marshal (with_ServerChallenge cm sc') endian)
     = firstn 24 (Marshal cm endian)
  /\ skipn 32 (Marshal (with_ServerChallenge cm sc') endian)
     = skipn 32 (Marshal cm endian).
Proof.
  intros [L1 L2 L3 _ _ _ _ _ _ _ _ _] L4.
  destruct cm as [sig mt tnl tnm tno nf sc rs til tim tio pl off].
  fields. array8 sig L1. array8 sc L2. array8 rs L3. array8 sc' L4.
  unfold Marshal, Marshal_body.
  destruct (Byte.eqb endian ">"); cbn [snd]; fields; unfold mem16, mem32;
    cbn [app slice Nat.leb andb List.length firstn skipn Nat.sub];
    repeat split.
Qed.

(** X13.  [SetServerChallenge] copies at most eight bytes: the challenge
    becomes the first eight bytes of the source (the argument, or the random
    bytes for nil) followed by what the former challenge held beyond the
    length of the source, it stays eight bytes long, and in the encoding
    only bytes 24 to 32 change. *)
Theorem SetServerChallenge_overwrites (rnd : list byte) (cm cm' : ChallengeMsg)
    (challenge : option (list byte)) (endian : byte) :
  wf cm ->
  SetServerChallenge rnd cm challenge = Ok cm' ->
  let src := match challenge with Some c => c | None => rnd end in
  ServerChallenge cm'
  = firstn 8 src ++ skipn (List.length src) (ServerChallenge cm)
  /\ List.length (ServerChallenge cm') = 8%nat
  /\ (8 <= List.length src -> ServerChallenge cm' = firstn 8 src)%nat
  /\ slice (Marshal cm' endian) 24 32 = Ok (ServerChallenge cm')
  /\ firstn 24 (Marshal cm' endian) = firstn 24 (Marshal cm endian)
  /\ skipn 32 (Marshal cm' endian) = skipn 32 (Marshal cm endian).
Proof.
  intros Hwf H src. pose proof Hwf as [_ L2 _ _ _ _ _ _ _ _ _ _].
  assert (Hcm' : cm' = with_ServerChallenge cm (copy (ServerChallenge cm) src))
    by (destruct challenge; cbn [SetServerChallenge] in H;
        injection H as <-; reflexivity).
  assert (Hlen : List.length (copy (ServerChallenge cm) src) = 8%nat).
  { unfold copy. rewrite length_app, length_firstn, length_skipn. lia. }
  subst cm'. fields. split; [|split; [exact Hlen|split]].
  - unfold copy. rewrite L2. reflexivity.
  - intros Hge. unfold copy. rewrite L2, skipn_all2 by lia.
    apply app_nil_r.
  - apply Marshal_challenge_frame; assumption.
Qed.

Lemma SetServerChallenge_overwrites_witness :
  slice (Marshal
           (with_ServerChallenge empty_msg
              ["a"; "b"; "c"; x00; x00; x00; x00; x00]%byte) ">"%byte)
    24 32
  = Ok ["a"; "b"; "c"; x00; x00; x00; x00; x00]%byte.
Proof.
  pose proof (SetServerChallenge_overwrites (make 8) empty_msg
                (with_ServerChallenge empty_msg
                   ["a"; "b"; "c"; x00; x00; x00; x00; x00]%byte)
                (Some ["a"; "b"; "c"]%byte) ">"%byte
                ltac:(wf_compute) eq_refl) as H.
  cbv zeta in H. destruct H as (_ & _ & _ & Hs & _). exact Hs.
Defined.

(** ** From the setters to the decoded message *)

Lemma lor_below_pow2 (n a b : Z) :
  0 < n -> 0 <= a < 2 ^ n -> 0 <= b < 2 ^ n -> 0 <= Z.lor a b < 2 ^ n.
Proof.
  intros Hn Ha Hb.
  assert (H0 : 0 <= Z.lor a b) by (apply Z.lor_nonneg; lia).
  split; [exact H0|].
  assert (Hlog : forall x, 0 <= x < 2 ^ n -> Z.log2 x < n).
  { intros x Hx. destruct (Z.eq_dec x 0) as [-> | Hx0]; [exact Hn|].
    apply Z.log2_lt_pow2; lia. }
  destruct (Z.eq_dec (Z.lor a b) 0) as [-> | Hz]; [lia|].
  apply Z.log2_lt_pow2; [lia|]. rewrite Z.log2_lor by lia.
  pose proof (Hlog a Ha). pose proof (Hlog b Hb). lia.
Qed.

Lemma lor_uint32 (a b : Z) :
  0 <= a < 4294967296 -> 0 <= b < 4294967296 ->
  0 <= Z.lor a b < 4294967296.
Proof.
  change 4294967296 with (2 ^ 32). apply lor_below_pow2. lia.
Qed.

Lemma TargetInfo_at (cm : ChallengeMsg) (pre enc post : list byte) :
  Payload cm = pre ++ enc ++ post ->
  TargetInfoBufferOffset cm = 48 + Z.of_nat (List.length pre) ->
  TargetInfoLen cm = Z.of_nat (List.length enc) ->
  0 < Z.of_nat (List.length enc) < 65536 ->
  Z.of_nat (List.length pre) < 4294901712 ->
  TargetInfo cm = Ok (Some enc).
Proof.
  intros Hp Ho Hl Hlen Hmax. unfold TargetInfo, ChallengeMsgPayloadOffset.
  rewrite Hp, Ho, Hl.
  destruct (Z.eqb_spec (Z.of_nat (List.length enc)) 0) as [E|_]; [lia|].
  replace (48 + Z.of_nat (List.length pre) - 48)
    with (Z.of_nat (List.length pre)) by lia.
  rewrite (uint32_small (Z.of_nat (List.length pre))) by lia.
  rewrite (uint32_small (Z.of_nat (List.length enc))) by lia.
  rewrite uint32_small by lia.
  replace (Z.to_nat (Z.of_nat (List.length pre)
                     + Z.of_nat (List.length enc)))
    with (List.length pre + List.length enc)%nat by lia.
  rewrite Nat2Z.id, slice_app_middle. reflexivity.
Qed.

Lemma TargetName_at (dec : list byte -> string) (cm : ChallengeMsg)
    (pre nb post : list byte) :
  Payload cm = pre ++ nb ++ post ->
  TargetNameBufferOffset cm = 48 + Z.of_nat (List.length pre) ->
  TargetNameLen cm = Z.of_nat (List.length nb) ->
  0 < Z.of_nat (List.length nb) < 65536 ->
  Z.of_nat (List.length pre) < 4294901712 ->
  TargetName dec cm
  = Ok (if Z.land (NegotiateFlags cm) 1 =? 1 then dec nb
        else string_of_list_byte nb).
Proof.
  intros Hp Ho Hl Hlen Hmax. unfold TargetName, ChallengeMsgPayloadOffset.
  rewrite Hp, Ho, Hl.
  destruct (Z.eqb_spec (Z.of_nat (List.length nb)) 0) as [E|_]; [lia|].
  replace (48 + Z.of_nat (List.length pre) - 48)
    with (Z.of_nat (List.length pre)) by lia.
  rewrite (uint32_small (Z.of_nat (List.length pre))) by lia.
  rewrite (uint32_small (Z.of_nat (List.length nb))) by lia.
  rewrite uint32_small by lia.
  replace (Z.to_nat (Z.of_nat (List.length pre)
                     + Z.of_nat (List.length nb)))
    with (List.length pre + List.length nb)%nat by lia.
  rewrite Nat2Z.id, slice_app_middle. cbn [bind].
  destruct (Z.land (NegotiateFlags cm) 1 =? 1); reflexivity.
Qed.

(** X14.  From the setters to the decoded message.  Starting from the empty
    message with any flags that leave the version bit clear, setting a
    non-empty target name and then a well-typed target info (each of at most
    65535 encoded bytes), encoding little-endian and decoding gives a
    message with the same wire fields, whose payload is the name bytes
    followed by the attribute pairs and whose accessors return the attribute
    pairs and the name. *)
Theorem build_encode_decode (avIdsRev : string -> byte)
    (dec : list byte -> string) (cm0 : ChallengeMsg) (flags : Z)
    (b : list byte) (t : list (string * value)) :
  wf cm0 ->
  0 <= flags < 4294967296 ->
  Z.land flags NEGOTIATE_VERSION = 0 ->
  b <> [] ->
  Z.of_nat (List.length (name_bytes (with_NegotiateFlags empty_msg flags) b))
  <= 65535 ->
  well_typed avIdsRev t ->
  Z.of_nat (List.length (AVPairs_encoding avIdsRev t)) <= 65535 ->
  exists cm1 cm2 m,
    SetTargetName (with_NegotiateFlags empty_msg flags) b = Ok cm1
    /\ SetTargetInfo avIdsRev cm1 t = Ok cm2
    /\ UnMarshal cm0 (Marshal cm2 "<"%byte) = Ok m
    /\ wire_eq m cm2
    /\ Payload m
       = name_bytes (with_NegotiateFlags empty_msg flags) b
         ++ AVPairs_encoding avIdsRev t
    /\ TargetInfo m = Ok (Some (AVPairs_encoding avIdsRev t))
    /\ TargetName dec m
       = Ok (if Z.land flags 1 =? 1 then dec (encodeUTF16LE b)
             else string_of_list_byte b).
Proof.
  intros Hwf0 Hflags Hver Hb Hnb Hwt Henc.
  set (start := with_NegotiateFlags empty_msg flags) in *.
  set (nb := name_bytes start b) in *.
  set (enc := AVPairs_encoding avIdsRev t) in *.
  pose proof (length_AVPairs_encoding_pos avIdsRev t) as Hepos.
  fold enc in Hepos.
  assert (Hnpos : 0 < Z.of_nat (List.length nb)).
  { subst nb. unfold name_bytes.
    destruct (negb _); rewrite ?length_encodeUTF16LE;
      destruct b; [contradiction | cbn [List.length]; lia
                  | contradiction | cbn [List.length]; lia]. }
  set (cm2 :=
         mkChallengeMsg (Signature empty_msg) 2
           (Z.of_nat (List.length nb)) (Z.of_nat (List.length nb)) 48
           (Z.lor flags NEGOTIATE_TARGET_INFO) (make 8) (make 8)
           (Z.of_nat (List.length enc)) (Z.of_nat (List.length enc))
           (48 + Z.of_nat (List.length nb)) (nb ++ enc)
           (48 + Z.of_nat (List.length nb) + Z.of_nat (List.length enc))).
  set (cm1 :=
         mkChallengeMsg (Signature start) (MessageType start)
           (uint16 (Z.of_nat (List.length nb)))
           (uint16 (Z.of_nat (List.length nb)))
           (offset start) (NegotiateFlags start) (ServerChallenge start)
           (Reserved start) (TargetInfoLen start) (TargetInfoMaxLen start)
           (TargetInfoBufferOffset start) (Payload start ++ nb)
           (uint32 (offset start
                    + uint32 (uint16 (Z.of_nat (List.length nb)))))).
  assert (Hset1 : SetTargetName start b = Ok cm1)
    by apply (SetTargetName_Ok start b eq_refl).
  assert (Hset2 : SetTargetInfo avIdsRev cm1 t = Ok cm2).
  { unfold SetTargetInfo.
    change (negb (TargetInfoLen cm1 =? 0)) with false. cbv iota.
    rewrite (avpair_loop_encoding avIdsRev t Hwt []). cbn [bind app].
    change (flat_map _ t ++ [x00; x00; x00; x00]) with enc.
    subst cm1 cm2. fields.
    change (offset start) with 48. change (Payload start) with (@nil byte).
    change (NegotiateFlags start) with flags. cbn [app].
    rewrite !(uint16_small (Z.of_nat (List.length nb))) by lia.
    rewrite !(uint16_small (Z.of_nat (List.length enc))) by lia.
    rewrite !(uint32_small (Z.of_nat (List.length nb))) by lia.
    rewrite !(uint32_small (Z.of_nat (List.length enc))) by lia.
    rewrite !(uint32_small (48 + Z.of_nat (List.length nb))) by lia.
    rewrite uint32_small by lia. reflexivity. }
  assert (Hwf2 : wf cm2).
  { subst cm2. constructor; fields; try reflexivity; try lia.
    apply lor_uint32; [exact Hflags | vm_compute; split; congruence]. }
  assert (Hver2 : Z.land (NegotiateFlags cm2) NEGOTIATE_VERSION = 0).
  { subst cm2. fields. rewrite Z.land_lor_distr_l, Hver. reflexivity. }
  assert (Hplen : plen_of cm2 = Z.of_nat (List.length (Payload cm2))).
  { unfold plen_of. rewrite Hver2. subst cm2. fields.
    rewrite length_app.
    destruct (Z.eqb_spec (Z.of_nat (List.length nb)) 0); [lia|].
    destruct (Z.eqb_spec (Z.of_nat (List.length enc)) 0); [lia|].
    destruct (Z.eqb_spec (48 + Z.of_nat (List.length nb)) 0); [lia|].
    cbn [Z.eqb negb andb]. lia. }
  exists cm1. exists cm2. exists (with_offset cm2 ChallengeMsgPayloadOffset).
  split; [exact Hset1|]. split; [exact Hset2|].
  split.
  { rewrite (UnMarshal_Marshal_gen cm0 cm2 Hwf0 Hwf2), Hplen.
    rewrite Z.leb_refl, Nat2Z.id, firstn_all. destruct cm2; reflexivity. }
  split; [reflexivity|]. split; [reflexivity|]. split.
  - apply (TargetInfo_at _ nb enc []); subst cm2; fields;
      rewrite ?app_nil_r; try reflexivity; lia.
  - rewrite (TargetName_at dec _ [] nb enc); subst cm2; fields;
      try reflexivity; try (cbn [List.length]; lia).
    assert (Hbit : Z.land (Z.lor flags NEGOTIATE_TARGET_INFO) 1
                   = Z.land flags 1).
    { rewrite Z.land_lor_distr_l.
      change (Z.land NEGOTIATE_TARGET_INFO 1) with 0.
      apply Z.lor_0_r. }
    rewrite Hbit. subst nb. unfold name_bytes, start. fields.
    unfold NEGOTIATE_UNICODE_CHARSET.
    assert (H01 : Z.land flags 1 = 0 \/ Z.land flags 1 = 1).
    { assert (Hl : Z.land flags 1 = flags mod 2)
        by exact (Z.land_ones flags 1 ltac:(lia)).
      pose proof (Z.mod_pos_bound flags 2 ltac:(lia)). lia. }
    destruct H01 as [-> | ->]; reflexivity.
Qed.

Lemma build_encode_decode_witness :
  exists cm1 cm2 m,
    SetTargetName (with_NegotiateFlags empty_msg 0)
      (list_byte_of_string "SRV") = Ok cm1
    /\ SetTargetInfo avIdsRev_table cm1 sample_tinfo = Ok cm2
    /\ UnMarshal ChallengeMsg_zero (Marshal cm2 "<"%byte) = Ok m
    /\ TargetInfo m = Ok (Some (AVPairs_encoding avIdsRev_table sample_tinfo))
    /\ TargetName (fun _ => EmptyString) m = Ok "SRV"%string.
Proof.
  destruct (build_encode_decode avIdsRev_table (fun _ => EmptyString)
              ChallengeMsg_zero 0 (list_byte_of_string "SRV") sample_tinfo)
    as (cm1 & cm2 & m & H1 & H2 & H3 & _ & _ & H4 & H5).
  - wf_compute.
  - lia.
  - reflexivity.
  - discriminate.
  - vm_compute. discriminate.
  - unfold well_typed, sample_tinfo.
    repeat (apply Forall_cons;
            [first [left; reflexivity | right; reflexivity]|]).
    apply Forall_nil.
  - vm_compute. discriminate.
  - exists cm1, cm2, m. repeat split; assumption.
Defined.

(** ** Decoding a big-endian encoding *)

Lemma ReverseBytes16_range (x : Z) :
  0 <= x < 65536 -> 0 <= ReverseBytes16 x < 65536.
Proof.
  intros Hx. unfold ReverseBytes16. change 65536 with (2 ^ 16).
  apply lor_below_pow2; [lia | | apply uint16_range].
  rewrite Z.shiftr_div_pow2 by lia. change (2 ^ 16) with 65536.
  change (2 ^ 8) with 256. Z.div_mod_to_equations. lia.
Qed.

Lemma ReverseBytes32_range (x : Z) :
  0 <= x < 4294967296 -> 0 <= ReverseBytes32 x < 4294967296.
Proof.
  intros Hx. unfold ReverseBytes32. change 4294967296 with (2 ^ 32).
  apply lor_below_pow2; [lia | | apply uint32_range].
  rewrite Z.shiftr_div_pow2 by lia.
  match goal with |- 0 <= ?y / _ < _ => assert (Hy : 0 <= y < 2 ^ 32) end.
  { apply lor_below_pow2; [lia | | apply uint32_range].
    assert (Hs : 0 <= Z.shiftr x 8) by (apply Z.shiftr_nonneg; lia).
    assert (H0 : 0 <= Z.land (Z.shiftr x 8) 16711935)
      by (apply Z.land_nonneg; right; lia).
    split; [exact H0|].
    destruct (Z.eq_dec (Z.land (Z.shiftr x 8) 16711935) 0) as [-> | Hz];
      [reflexivity|].
    apply Z.log2_lt_pow2; [lia|].
    pose proof (Z.log2_land (Z.shiftr x 8) 16711935 Hs ltac:(lia)) as Hl.
    change (Z.log2 16711935) with 23 in Hl. lia. }
  change (2 ^ 32) with 4294967296 in *. change (2 ^ 16) with 65536.
  Z.div_mod_to_equations. lia.
Qed.


Lemma wf_byte_swapped (m : ChallengeMsg) : wf m -> wf (byte_swapped m).
Proof.
  intros [L1 L2 L3 R1 R2 R3 R4 R5 R6 R7 R8 R9].
  unfold byte_swapped, Marshal_body.
  change (Byte.eqb ">" ">") with true. cbv iota. cbn [fst]. fields.
  constructor; fields; try assumption;
    first [apply ReverseBytes32_range | apply ReverseBytes16_range];
    assumption.
Qed.

Lemma byte_swapped_eq (m : ChallengeMsg) :
  byte_swapped m
  = mkChallengeMsg (Signature m) (ReverseBytes32 (MessageType m))
      (ReverseBytes16 (TargetNameLen m)) (ReverseBytes16 (TargetNameMaxLen m))
      (ReverseBytes32 (TargetNameBufferOffset m))
      (ReverseBytes32 (NegotiateFlags m)) (ServerChallenge m) (Reserved m)
      (ReverseBytes16 (TargetInfoLen m)) (ReverseBytes16 (TargetInfoMaxLen m))
      (ReverseBytes32 (TargetInfoBufferOffset m)) (Payload m) (offset m).
Proof.
  unfold byte_swapped, Marshal_body.
  change (Byte.eqb ">" ">") with true. cbv iota. cbn [fst]. fields.
  reflexivity.
Qed.

Lemma Marshal_big_endian_swapped (m : ChallengeMsg) :
  Marshal m ">"%byte = Marshal (byte_swapped m) "<"%byte.
Proof.
  rewrite byte_swapped_eq. unfold Marshal, Marshal_body.
  change (Byte.eqb ">" ">") with true. change (Byte.eqb "<" ">") with false.
  cbv iota. cbn [snd]. fields. reflexivity.
Qed.



(** ** The bounds of the accessors *)

Lemma payload_slice_bounds (p : list byte) (off len : Z) :
  0 <= off < 4294967296 -> 0 < len < 65536 ->
  Z.of_nat (List.length p) < 4294967248 ->
  slice p (Z.to_nat (uint32 (off - 48)))
    (Z.to_nat (uint32 (uint32 (off - 48) + uint32 len)))
  = if ((48 <=? off) && (off - 48 + len <=? Z.of_nat (List.length p)))%bool
    then Ok (firstn (Z.to_nat len) (skipn (Z.to_nat (off - 48)) p))
    else Fault IndexOutOfRange.
Proof.
  intros Hoff Hlen Hp.
  rewrite (uint32_small len) by lia.
  set (lo := uint32 (off - 48)).
  assert (Hlo : 48 <= off /\ lo = off - 48
                \/ off < 48 /\ lo = off - 48 + 4294967296)
    by (subst lo; unfold uint32; Z.div_mod_to_equations; lia).
  set (hi := uint32 (lo + len)).
  assert (Hhi : lo + len < 4294967296 /\ hi = lo + len
                \/ 4294967296 <= lo + len /\ hi = lo + len - 4294967296)
    by (subst hi; unfold uint32; Z.div_mod_to_equations; lia).
  destruct (Z.leb_spec 48 off) as [H48 | H48];
    destruct (Z.leb_spec (off - 48 + len) (Z.of_nat (List.length p)))
      as [Hfit | Hfit]; cbn [andb].
  - rewrite slice_ok by lia.
    replace (Z.to_nat hi - Z.to_nat lo)%nat with (Z.to_nat len) by lia.
    replace lo with (off - 48) by lia. reflexivity.
  - unfold slice.
    destruct (Nat.leb_spec (Z.to_nat lo) (Z.to_nat hi));
      destruct (Nat.leb_spec (Z.to_nat hi) (List.length p));
      cbn [andb]; try reflexivity. exfalso. lia.
  - unfold slice.
    destruct (Nat.leb_spec (Z.to_nat lo) (Z.to_nat hi));
      destruct (Nat.leb_spec (Z.to_nat hi) (List.length p));
      cbn [andb]; try reflexivity. exfalso. lia.
  - unfold slice.
    destruct (Nat.leb_spec (Z.to_nat lo) (Z.to_nat hi));
      destruct (Nat.leb_spec (Z.to_nat hi) (List.length p));
      cbn [andb]; try reflexivity. exfalso. lia.
Qed.

(** X16.  The bounds of the accessors, on a message whose payload has the
    spare capacity [sp].  With a non-zero target-info (target-name) length,
    the accessor faults exactly when the recorded offset is below 48 or the
    recorded range ends past the capacity of the payload; otherwise it
    returns the bytes in the range [offset - 48, offset - 48 + length) of
    the payload followed by its spare capacity. *)
Theorem accessors_bounds (dec : list byte -> string) (cm : ChallengeMsg)
    (sp : list byte) :
  wf cm ->
  Z.of_nat (List.length (Payload cm ++ sp)) < 4294967248 ->
  (TargetInfoLen cm <> 0 ->
   TargetInfo_in cm sp
   = if ((48 <=? TargetInfoBufferOffset cm)
         && (TargetInfoBufferOffset cm - 48 + TargetInfoLen cm
             <=? Z.of_nat (List.length (Payload cm ++ sp))))%bool
     then Ok (Some (firstn (Z.to_nat (TargetInfoLen cm))
                      (skipn (Z.to_nat (TargetInfoBufferOffset cm - 48))
                         (Payload cm ++ sp))))
     else Fault IndexOutOfRange)
  /\
  (TargetNameLen cm <> 0 ->
   TargetName_in dec cm sp
   = if ((48 <=? TargetNameBufferOffset cm)
         && (TargetNameBufferOffset cm - 48 + TargetNameLen cm
             <=? Z.of_nat (List.length (Payload cm ++ sp))))%bool
     then
       let tname :=
         firstn (Z.to_nat (TargetNameLen cm))
           (skipn (Z.to_nat (TargetNameBufferOffset cm - 48))
              (Payload cm ++ sp)) in
       Ok (if Z.land (NegotiateFlags cm) 1 =? 1 then dec tname
           else string_of_list_byte tname)
     else Fault IndexOutOfRange).
Proof.
  intros [_ _ _ _ R2 _ R4 _ R6 _ R8 _] Hp. split; intros Hn.
  - unfold TargetInfo_in, ChallengeMsgPayloadOffset.
    apply Z.eqb_neq in Hn. rewrite Hn. apply Z.eqb_neq in Hn.
    rewrite sub_backing. unfold backing. cbn [elems spare].
    rewrite payload_slice_bounds by lia.
    destruct (_ && _)%bool; reflexivity.
  - unfold TargetName_in, ChallengeMsgPayloadOffset.
    apply Z.eqb_neq in Hn. rewrite Hn. apply Z.eqb_neq in Hn.
    rewrite sub_backing. unfold backing. cbn [elems spare].
    rewrite payload_slice_bounds by lia.
    destruct (_ && _)%bool; cbn [bind]; [|reflexivity].
    destruct (Z.land (NegotiateFlags cm) 1 =? 1); reflexivity.
Qed.

Lemma accessors_bounds_witness :
  TargetInfo_in (with_TargetInfoBufferOffset msg_name_then_info 47) [x00; x00]
  = Fault IndexOutOfRange
  /\ TargetInfo_in (with_TargetInfoLen msg_name_then_info 6) [x07; x08; x09]
     = Ok (Some [x00; x00; x00; x00; x07; x08])
  /\ TargetName_in (fun _ => EmptyString) msg_name_then_info [x07]
     = Ok "A"%string.
Proof.
  split; [|split].
  - rewrite (proj1 (accessors_bounds (fun _ => EmptyString)
                      (with_TargetInfoBufferOffset msg_name_then_info 47)
                      [x00; x00]
                      ltac:(wf_compute) ltac:(vm_compute; reflexivity)))
      by (vm_compute; discriminate).
    reflexivity.
  - rewrite (proj1 (accessors_bounds (fun _ => EmptyString)
                      (with_TargetInfoLen msg_name_then_info 6)
                      [x07; x08; x09]
                      ltac:(wf_compute) ltac:(vm_compute; reflexivity)))
      by (vm_compute; discriminate).
    reflexivity.
  - rewrite (proj2 (accessors_bounds (fun _ => EmptyString)
                      msg_name_then_info [x07]
                      ltac:(wf_compute) ltac:(vm_compute; reflexivity)))
      by (vm_compute; discriminate).
    reflexivity.
Defined.

(** ** A setter on a decoded message *)

(** X17.  On a decoded message with no target info, [SetTargetInfo] records
    offset 48 although it appends after the decoded payload, so that
    [TargetInfo] then returns the leading bytes of the whole payload, which
    are the encoded attribute pairs only when the decoded payload was
    empty. *)
Theorem SetTargetInfo_on_decoded (avIdsRev : string -> byte)
    (cm0 m : ChallengeMsg) (bs : list byte) (t : list (string * value)) :
  wf cm0 ->
  UnMarshal cm0 bs = Ok m ->
  TargetInfoLen m = 0 ->
  well_typed avIdsRev t ->
  Z.of_nat (List.length (AVPairs_encoding avIdsRev t)) <= 65535 ->
  exists m',
    SetTargetInfo avIdsRev m t = Ok m'
    /\ TargetInfoBufferOffset m' = 48
    /\ Payload m' = Payload m ++ AVPairs_encoding avIdsRev t
    /\ TargetInfo m'
       = Ok (Some (firstn (List.length (AVPairs_encoding avIdsRev t))
                     (Payload m ++ AVPairs_encoding avIdsRev t))).
Proof.
  intros Hwf0 Hdec H0 Hwt Hlen.
  pose proof (length_AVPairs_encoding_pos avIdsRev t) as Hpos.
  assert (Hoff : offset m = 48).
  { apply UnMarshal_Ok_inv in Hdec as [-> _]; [reflexivity | exact Hwf0]. }
  unfold SetTargetInfo. rewrite H0. cbn [Z.eqb negb].
  rewrite (avpair_loop_encoding avIdsRev t Hwt []). cbn [bind app].
  change (flat_map _ t ++ [x00; x00; x00; x00])
    with (AVPairs_encoding avIdsRev t).
  set (enc := AVPairs_encoding avIdsRev t) in *.
  eexists. split; [reflexivity|]. fields.
  split; [exact Hoff|]. split; [reflexivity|].
  apply (TargetInfo_at _ [] (firstn (List.length enc) (Payload m ++ enc))
           (skipn (List.length enc) (Payload m ++ enc))); fields.
  - cbn [app]. symmetry. apply firstn_skipn.
  - rewrite Hoff. reflexivity.
  - rewrite uint16_small by lia.
    rewrite length_firstn, length_app. lia.
  - rewrite length_firstn, length_app. lia.
  - cbn [List.length]. lia.
Qed.

Lemma SetTargetInfo_on_decoded_witness :
  exists m',
    SetTargetInfo avIdsRev_table (decoded buffer_name_A) [] = Ok m'
    /\ TargetInfoBufferOffset m' = 48
    /\ TargetInfo m' = Ok (Some ["A"; x00; x00; x00]%byte).
Proof.
  destruct (SetTargetInfo_on_decoded avIdsRev_table ChallengeMsg_zero
              (decoded buffer_name_A) buffer_name_A [])
    as (m' & H & Ho & _ & Hr).
  - wf_compute.
  - vm_compute. reflexivity.
  - reflexivity.
  - constructor.
  - vm_compute. discriminate.
  - exists m'. split; [exact H|]. split; [exact Ho | exact Hr].
Defined.
